(** * Track geometry engine and coaster store of roller-coaster-builder

    A shallow embedding of the TypeScript sources:
    - [client/src/components/game/CoasterCar.tsx] and [RideCamera.tsx]
      (loop evaluator, section table builder, path sampler, ride tick);
    - [client/src/lib/stores/useRollerCoaster.tsx] (the store actions
      [removeTrackPoint], [createLoopAtPoint], [stopRide], [importCoaster]).

    JavaScript numbers are modelled as real numbers (the idealised
    arithmetic the floating-point code approximates); three.js [Vector3]
    is a record of three reals with the same operations.  The
    Catmull-Rom spline of three.js is a library object and is taken as a
    parameter ([Curve]) exposing [getPoint] and [getTangent]. *)

From Stdlib Require Import Reals Lra Psatz List String Ascii Bool.
From Stdlib Require Import Ratan.
Import ListNotations.

Open Scope R_scope.
#[global] Set Warnings "-register-all".

(* ------------------------------------------------------------------ *)
(** ** three.js [Vector3] *)

Record Vector3 := V3 { vx : R; vy : R; vz : R }.

Definition vzero : Vector3 := V3 0 0 0.

(** [a.add(b)] *)
Definition vadd (a b : Vector3) : Vector3 :=
  V3 (vx a + vx b) (vy a + vy b) (vz a + vz b).

(** [a.sub(b)] *)
Definition vsub (a b : Vector3) : Vector3 :=
  V3 (vx a - vx b) (vy a - vy b) (vz a - vz b).

(** [a.multiplyScalar(s)] *)
Definition multiplyScalar (a : Vector3) (s : R) : Vector3 :=
  V3 (vx a * s) (vy a * s) (vz a * s).

(** [a.addScaledVector(v, s)] *)
Definition addScaledVector (a v : Vector3) (s : R) : Vector3 :=
  V3 (vx a + vx v * s) (vy a + vy v * s) (vz a + vz v * s).

Definition dot (a b : Vector3) : R := vx a * vx b + vy a * vy b + vz a * vz b.

(** [new Vector3().crossVectors(a, b)] *)
Definition crossVectors (a b : Vector3) : Vector3 :=
  V3 (vy a * vz b - vz a * vy b)
     (vz a * vx b - vx a * vz b)
     (vx a * vy b - vy a * vx b).

Definition lengthSq (a : Vector3) : R := dot a a.

Definition length (a : Vector3) : R := sqrt (lengthSq a).

Definition distanceTo (a b : Vector3) : R := length (vsub a b).

(** [x || 1] on a number: [0] is falsy. *)
Definition or_one (x : R) : R := if Req_EM_T x 0 then 1 else x.

(** [a.normalize()] is [a.divideScalar(a.length() || 1)]. *)
Definition normalize (a : Vector3) : Vector3 :=
  multiplyScalar a (/ or_one (length a)).

(* ------------------------------------------------------------------ *)
(** ** The closed-form loop evaluator [sampleBarrelRollAnalytically] *)

Record BarrelRollFrame := mkFrame {
  entryPos : Vector3;
  forward : Vector3;
  frame_up : Vector3;
  right : Vector3;
  radius : R;
  pitch : R
}.

Record Sample := mkSample {
  point : Vector3;
  tangent : Vector3;
  up : Vector3
}.

Definition twoPi : R := PI * 2.

(** [theta = twoPi * (t - Math.sin(twoPi * t) / twoPi)] *)
Definition theta (t : R) : R := twoPi * (t - sin (twoPi * t) / twoPi).

(** [dThetaDt = twoPi * (1 - Math.cos(twoPi * t))] *)
Definition dThetaDt (t : R) : R := twoPi * (1 - cos (twoPi * t)).

Definition sampleBarrelRollAnalytically (frame : BarrelRollFrame) (t : R) : Sample :=
  let U0 := frame_up frame in
  let R0 := right frame in
  let th := theta t in
  let dth := dThetaDt t in
  let pt :=
    addScaledVector
      (addScaledVector
         (addScaledVector (entryPos frame) (forward frame) (pitch frame * t))
         R0 (radius frame * (cos th - 1)))
      U0 (radius frame * sin th) in
  let tg :=
    normalize
      (addScaledVector
         (addScaledVector (multiplyScalar (forward frame) (pitch frame))
            R0 (- radius frame * sin th * dth))
         U0 (radius frame * cos th * dth)) in
  let rotatedUp :=
    normalize (addScaledVector (addScaledVector vzero U0 (cos th)) R0 (- sin th)) in
  mkSample pt tg rotatedUp.

(* ------------------------------------------------------------------ *)
(** ** Comparisons, [Math.min]/[Math.max], quaternions *)

Definition rlt (x y : R) : bool := if Rlt_dec x y then true else false.
Definition rle (x y : R) : bool := if Rle_dec x y then true else false.

(** [Math.max(-1, Math.min(1, x))] *)
Definition clampUnit (x : R) : R := Rmax (-1) (Rmin 1 x).

Record Quaternion := Quat { qx : R; qy : R; qz : R; qw : R }.

(** [new THREE.Quaternion().setFromAxisAngle(axis, angle)] *)
Definition setFromAxisAngle (axis : Vector3) (angle : R) : Quaternion :=
  let s := sin (angle / 2) in
  Quat (vx axis * s) (vy axis * s) (vz axis * s) (cos (angle / 2)).

(** [v.applyQuaternion(q)] as three.js computes it:
    [t = 2 * cross(q.xyz, v)], [v + q.w * t + cross(q.xyz, t)]. *)
Definition applyQuaternion (v : Vector3) (q : Quaternion) : Vector3 :=
  let tx := 2 * (qy q * vz v - qz q * vy v) in
  let ty := 2 * (qz q * vx v - qx q * vz v) in
  let tz := 2 * (qx q * vy v - qy q * vx v) in
  V3 (vx v + qw q * tx + qy q * tz - qz q * ty)
     (vy v + qw q * ty + qz q * tx - qx q * tz)
     (vz v + qw q * tz + qx q * ty - qy q * tx).

(** [a.sub(b.clone().multiplyScalar(a.dot(b)))]: remove the component of
    [a] along [b]. *)
Definition subProj (a b : Vector3) : Vector3 :=
  vsub a (multiplyScalar b (dot a b)).

(* ------------------------------------------------------------------ *)
(** ** The spline (three.js [CatmullRomCurve3]) *)

Record Curve := mkCurve {
  getPoint : R -> Vector3;
  getTangent : R -> Vector3
}.

(* ------------------------------------------------------------------ *)
(** ** [computeRollFrame] and [computeRollArcLength] *)

(** The minimal rotation of [prevUp] taking [prevTangent] to [forward],
    with the degenerate-case policy of [computeRollFrame]. *)
Definition rotateUpTo (prevTangent prevUp fwd : Vector3) : Vector3 :=
  let d := clampUnit (dot prevTangent fwd) in
  if rlt 0.9999 d then prevUp
  else if rlt d (-0.9999) then prevUp
  else
    let axis := crossVectors prevTangent fwd in
    if rlt 0.0001 (length axis) then
      applyQuaternion prevUp (setFromAxisAngle (normalize axis) (acos d))
    else prevUp.

Definition computeRollFrame (spline : Curve) (splineT : R)
    (prevTangent prevUp : Vector3) (rad pit : R) (rollOffset : Vector3)
    : BarrelRollFrame :=
  let eP := vadd (getPoint spline splineT) rollOffset in
  let fwd := normalize (getTangent spline splineT) in
  let entryUp0 := rotateUpTo prevTangent prevUp fwd in
  let entryUp1 := subProj entryUp0 fwd in
  let entryUp :=
    if rlt 0.001 (length entryUp1) then normalize entryUp1
    else normalize (subProj (V3 0 1 0) fwd) in
  let rgt := normalize (crossVectors fwd entryUp) in
  mkFrame eP fwd entryUp rgt rad pit.

(** [for (let i = 0; i < n; i++) body(i)] summing into an accumulator. *)
Fixpoint sumRange (n : nat) (f : nat -> R) : R :=
  match n with
  | O => 0
  | S k => sumRange k f + f k
  end.

Definition computeRollArcLength (rad pit : R) : R :=
  let steps := 100%nat in
  sumRange steps (fun i =>
    let t1 := INR i / INR steps in
    let t2 := INR (S i) / INR steps in
    let theta1 := twoPi * (t1 - sin (twoPi * t1) / twoPi) in
    let theta2 := twoPi * (t2 - sin (twoPi * t2) / twoPi) in
    let dTheta := theta2 - theta1 in
    let dForward := pit / INR steps in
    let dRadial := rad * sqrt (dTheta * dTheta) in
    sqrt (dForward * dForward + dRadial * dRadial)).

(* ------------------------------------------------------------------ *)
(** ** Store data: [TrackPoint] and [LoopSegment] *)

Record TrackPoint := mkTrackPoint {
  tp_id : string;
  position : Vector3;
  tilt : R;
  hasLoop : option bool
}.

Record LoopSegment := mkLoopSegment {
  ls_id : string;
  entryPointId : string;
  ls_radius : R;
  ls_pitch : R
}.

(** [loopMap]: a [Map] filled by [loopMap.set(seg.entryPointId, seg)] in
    order, so [loopMap.get(id)] is the last segment with that entry id. *)
Definition loopMapGet (segs : list LoopSegment) (id : string) : option LoopSegment :=
  fold_left (fun acc seg => if String.eqb (entryPointId seg) id then Some seg else acc)
    segs None.

(* ------------------------------------------------------------------ *)
(** ** Section table ([TrackSection]) and its builder *)

Inductive SectionType := SecSpline | SecRoll.

Record TrackSection := mkSection {
  sec_type : SectionType;
  startProgress : R;
  endProgress : R;
  arcLength : R;
  rollFrame : option BarrelRollFrame;
  splineStartT : option R;
  splineEndT : option R;
  pointIndex : option nat
}.

Definition setProgress (s : TrackSection) (a b : R) : TrackSection :=
  mkSection (sec_type s) a b (arcLength s) (rollFrame s) (splineStartT s)
    (splineEndT s) (pointIndex s).

(** Chord-length sum over [subSamples = 10] sub-samples of a spline span. *)
Definition splineSegmentLength (curve : Curve) (a b : R) : R :=
  let subSamples := 10%nat in
  sumRange subSamples (fun s =>
    let t1 := a + (INR s / INR subSamples) * (b - a) in
    let t2 := a + (INR (S s) / INR subSamples) * (b - a) in
    distanceTo (getPoint curve t1) (getPoint curve t2)).

(** The initial running up: world-up projected off the first tangent,
    world-X when that is degenerate. *)
Definition initialUp (prevTangent : Vector3) : Vector3 :=
  let u := subProj (V3 0 1 0) prevTangent in
  if rlt (length u) 0.01 then normalize (subProj (V3 1 0 0) prevTangent)
  else normalize u.

(** Propagation of the running up across one spline section. *)
Definition propagateUp (prevTangent prevUp endTangent : Vector3) : Vector3 :=
  let d := clampUnit (dot prevTangent endTangent) in
  let up1 :=
    if rlt d 0.9999 && rlt (-0.9999) d then
      let axis := crossVectors prevTangent endTangent in
      if rlt 0.0001 (length axis) then
        applyQuaternion prevUp (setFromAxisAngle (normalize axis) (acos d))
      else prevUp
    else prevUp in
  let up2 := subProj up1 endTangent in
  if rlt 0.001 (length up2) then normalize up2 else up2.

(** The mutable locals of the [sections] [useMemo] loop. *)
Record BuildState := mkBuild {
  b_sections : list TrackSection;  (* in push order *)
  accumulatedLength : R;
  b_rollOffset : Vector3;
  prevTangent : Vector3;
  prevUp : Vector3
}.

(** One iteration [i] of [for (let i = 0; i < numPoints; i++)]. *)
Definition buildStep (curve : Curve) (loopSegments : list LoopSegment)
    (numPoints : nat) (isLooped : bool) (i : nat) (pt : TrackPoint)
    (st : BuildState) : BuildState :=
  let totalSplineSegments := INR (if isLooped then numPoints else numPoints - 1) in
  let st1 :=
    match loopMapGet loopSegments (tp_id pt) with
    | Some loopSeg =>
        let splineT := INR i / totalSplineSegments in
        let rf := computeRollFrame curve splineT (prevTangent st) (prevUp st)
                    (ls_radius loopSeg) (ls_pitch loopSeg) (b_rollOffset st) in
        let rollArcLength := computeRollArcLength (ls_radius loopSeg) (ls_pitch loopSeg) in
        mkBuild (b_sections st ++ [mkSection SecRoll 0 0 rollArcLength (Some rf) None None (Some i)])
          (accumulatedLength st + rollArcLength)
          (addScaledVector (b_rollOffset st) (forward rf) (ls_pitch loopSeg))
          (forward rf) (frame_up rf)
    | None => st
    end in
  if Nat.leb (numPoints - 1) i && negb isLooped then st1
  else
    let sT := INR i / totalSplineSegments in
    let eT := INR (S i) / totalSplineSegments in
    let segmentLength := splineSegmentLength curve sT eT in
    let endTangent := normalize (getTangent curve eT) in
    mkBuild (b_sections st1 ++ [mkSection SecSpline 0 0 segmentLength None (Some sT) (Some eT) (Some i)])
      (accumulatedLength st1 + segmentLength)
      (b_rollOffset st1)
      endTangent
      (propagateUp (prevTangent st1) (prevUp st1) endTangent).

Fixpoint buildLoop (curve : Curve) (loopSegments : list LoopSegment)
    (numPoints : nat) (isLooped : bool) (i : nat) (pts : list TrackPoint)
    (st : BuildState) : BuildState :=
  match pts with
  | [] => st
  | pt :: rest =>
      buildLoop curve loopSegments numPoints isLooped (S i) rest
        (buildStep curve loopSegments numPoints isLooped i pt st)
  end.

(** [runningLength] loop: each section gets its cumulative-length range. *)
Fixpoint assignProgress (runningLength total : R) (secs : list TrackSection)
    : list TrackSection :=
  match secs with
  | [] => []
  | s :: rest =>
      let st := runningLength / total in
      let rl := runningLength + arcLength s in
      setProgress s st (rl / total) :: assignProgress rl total rest
  end.

(** The [sections] [useMemo] of [CoasterCar]/[RideCamera]; [curve] is
    [getTrackCurve(trackPoints, isLooped)]. Returns the table and
    [accumulatedLength] (the [totalArcLength] of [RideCamera]). *)
Definition buildSections (curve : Curve) (trackPoints : list TrackPoint)
    (loopSegments : list LoopSegment) (isLooped : bool) : list TrackSection * R :=
  if Nat.ltb (List.length trackPoints) 2 then ([], 0)
  else
    let t0 := normalize (getTangent curve 0) in
    let st := buildLoop curve loopSegments (List.length trackPoints) isLooped 0 trackPoints
                (mkBuild [] 0 vzero t0 (initialUp t0)) in
    (assignProgress 0 (accumulatedLength st) (b_sections st), accumulatedLength st).

(* ------------------------------------------------------------------ *)
(** ** The path sampler [sampleHybridTrack] *)

(** The [RideCamera] version returns [inRoll] in addition; the
    [CoasterCar] version is the same function without that flag. *)
Record HybridSample := mkHybrid {
  hs : Sample;
  inRoll : bool
}.

(** [Math.max(0, Math.min(progress, 0.9999))] *)
Definition clampProgress (progress : R) : R := Rmax 0 (Rmin progress 0.9999).

Definition inSection (progress : R) (s : TrackSection) : bool :=
  rle (startProgress s) progress && rlt progress (endProgress s).

(** The linear scan, with the fallback [sections[sections.length - 1]]. *)
Definition locateSection (progress : R) (s0 : TrackSection) (sections : list TrackSection)
    : TrackSection :=
  match find (inSection progress) sections with
  | Some s => s
  | None => last sections s0
  end.

(** [rollOffset] of a spline sample: the [pitch] of every loop whose entry
    index is [<= pointIndex], along the spline tangent at that entry. *)
Definition sampleRollOffset (spline : Curve) (loopSegments : list LoopSegment)
    (trackPoints : list TrackPoint) (isLooped : bool) (pidx : nat) : Vector3 :=
  let numPoints := List.length trackPoints in
  let totalSplineSegments := INR (if isLooped then numPoints else numPoints - 1) in
  fst (fold_left
         (fun (acc : Vector3 * nat) tp =>
            let (off, i) := acc in
            match loopMapGet loopSegments (tp_id tp) with
            | Some loopSeg =>
                let fwd := normalize (getTangent spline (INR i / totalSplineSegments)) in
                (addScaledVector off fwd (ls_pitch loopSeg), S i)
            | None => (off, S i)
            end)
         (firstn (S pidx) trackPoints) (vzero, O)).

(** [up] of a spline sample: world-up projected off [tangent], world-X
    when that is degenerate. *)
Definition splineUp (tg : Vector3) : Vector3 :=
  let u := subProj (V3 0 1 0) tg in
  if rlt 0.001 (lengthSq u) then normalize u
  else normalize (subProj (V3 1 0 0) tg).

(** Sampling inside the located [section] at the clamped [progress]. *)
Definition sampleSection (progress : R) (section : TrackSection)
    (spline : Curve) (loopSegments : list LoopSegment)
    (trackPoints : list TrackPoint) (isLooped : bool) : option HybridSample :=
  let localT := (progress - startProgress section) /
                (endProgress section - startProgress section) in
  match sec_type section, rollFrame section with
  | SecRoll, Some rf => Some (mkHybrid (sampleBarrelRollAnalytically rf localT) true)
  | _, _ =>
      match splineStartT section, splineEndT section with
      | Some a, Some b =>
          let splineT := a + localT * (b - a) in
          let tg := normalize (getTangent spline splineT) in
          let off := sampleRollOffset spline loopSegments trackPoints isLooped
                       (match pointIndex section with Some k => k | None => O end) in
          Some (mkHybrid (mkSample (vadd (getPoint spline splineT) off) tg (splineUp tg)) false)
      | _, _ => None
      end
  end.

Definition sampleHybridTrack (progress0 : R) (sections : list TrackSection)
    (spline : Curve) (loopSegments : list LoopSegment)
    (trackPoints : list TrackPoint) (isLooped : bool) : option HybridSample :=
  match sections with
  | [] => None
  | s0 :: _ =>
      let progress := clampProgress progress0 in
      sampleSection progress (locateSection progress s0 sections) spline loopSegments
        trackPoints isLooped
  end.

(* ------------------------------------------------------------------ *)
(** ** The store ([useRollerCoaster]) *)

Inductive CoasterMode := Build | Ride | Preview.

(** The JSON values [JSON.parse] produces. A number literal beyond the
    double range ([1e400]) parses to [Infinity] ([JInf false]) or
    [-Infinity] ([JInf true]); every other number is the finite [JNum n].
    Strings are their UTF-8 encodings. *)
Inductive json :=
| JNull
| JBool (b : bool)
| JNum (n : R)
| JStr (s : string)
| JArr (xs : list json)
| JObj (kvs : list (string * json))
| JInf (neg : bool).

(** Induction on [json] through its arrays and objects. *)
Definition json_ind' (P : json -> Prop) (Hnull : P JNull) (Hbool : forall b, P (JBool b))
    (Hnum : forall n, P (JNum n)) (Hstr : forall s, P (JStr s))
    (Harr : forall xs, Forall P xs -> P (JArr xs))
    (Hobj : forall kvs, Forall (fun kv => P (snd kv)) kvs -> P (JObj kvs))
    (Hinf : forall b, P (JInf b)) : forall v, P v :=
  fix go v :=
    match v return P v with
    | JNull => Hnull
    | JBool b => Hbool b
    | JNum n => Hnum n
    | JStr s => Hstr s
    | JArr xs =>
        Harr xs ((fix goL l := match l return Forall P l with
                              | [] => Forall_nil P
                              | x :: r => Forall_cons x (go x) (goL r)
                              end) xs)
    | JObj kvs =>
        Hobj kvs ((fix goO l := match l return Forall (fun kv => P (snd kv)) l with
                               | [] => Forall_nil _
                               | (k, x) :: r => Forall_cons (k, x) (go x) (goO r)
                               end) kvs)
    | JInf b => Hinf b
    end.

(** [JSON.parse(JSON.stringify(v))]: [JSON.stringify] writes a
    non-finite number as [null]. *)
Fixpoint jsonStored (v : json) : json :=
  match v with
  | JInf _ => JNull
  | JArr xs => JArr (map jsonStored xs)
  | JObj kvs => JObj (map (fun kv => (fst kv, jsonStored (snd kv))) kvs)
  | _ => v
  end.

Record SavedCoaster := mkSaved {
  sc_id : string;
  sc_name : string;
  sc_timestamp : R;
  sc_trackPoints : list json;
  sc_loopSegments : json;
  sc_isLooped : bool;
  sc_hasChainLift : bool;
  sc_showWoodSupports : bool
}.

(** A saved coaster written by [JSON.stringify] and read back by
    [JSON.parse] (its [timestamp] is [Date.now()], a finite number). *)
Definition storedCoaster (c : SavedCoaster) : SavedCoaster :=
  mkSaved (sc_id c) (sc_name c) (sc_timestamp c) (map jsonStored (sc_trackPoints c))
    (jsonStored (sc_loopSegments c)) (sc_isLooped c) (sc_hasChainLift c)
    (sc_showWoodSupports c).

(** The fields of the store the modelled actions read or write. *)
Record Store := mkStore {
  mode : CoasterMode;
  trackPoints : list TrackPoint;
  loopSegments : list LoopSegment;
  selectedPointId : option string;
  rideProgress : R;
  isRiding : bool;
  isLooped : bool;
  hasChainLift : bool;
  savedCoasters : list SavedCoaster
}.

(** [removeTrackPoint(id)] *)
Definition removeTrackPoint (id : string) (st : Store) : Store :=
  mkStore (mode st)
    (filter (fun p => negb (String.eqb (tp_id p) id)) (trackPoints st))
    (loopSegments st)
    (match selectedPointId st with
     | Some s => if String.eqb s id then None else Some s
     | None => None
     end)
    (rideProgress st) (isRiding st) (isLooped st) (hasChainLift st) (savedCoasters st).

(** [createLoopAtPoint(id)]; [loopId] is [`loop-${Date.now()}`]. *)
Definition createLoopAtPoint (loopId id : string) (st : Store) : Store :=
  match find (fun p => String.eqb (tp_id p) id) (trackPoints st) with
  | None => st
  | Some entryPoint =>
      if match hasLoop entryPoint with Some true => true | _ => false end then st
      else
        let seg := mkLoopSegment loopId id 5 12 in
        mkStore (mode st)
          (map (fun p => if String.eqb (tp_id p) id
                         then mkTrackPoint (tp_id p) (position p) (tilt p) (Some true)
                         else p) (trackPoints st))
          (loopSegments st ++ [seg])
          (selectedPointId st) (rideProgress st) (isRiding st) (isLooped st)
          (hasChainLift st) (savedCoasters st)
  end.

(** [clearTrack()] *)
Definition clearTrack (st : Store) : Store :=
  mkStore (mode st) [] [] None 0 false (isLooped st) (hasChainLift st) (savedCoasters st).

(** [setRideProgress(progress)] *)
Definition setRideProgress (p : R) (st : Store) : Store :=
  mkStore (mode st) (trackPoints st) (loopSegments st) (selectedPointId st) p
    (isRiding st) (isLooped st) (hasChainLift st) (savedCoasters st).

(** [stopRide()] *)
Definition stopRide (st : Store) : Store :=
  mkStore Build (trackPoints st) (loopSegments st) (selectedPointId st) 0
    false (isLooped st) (hasChainLift st) (savedCoasters st).

(** [set({ savedCoasters })] *)
Definition setSavedCoasters (cs : list SavedCoaster) (st : Store) : Store :=
  mkStore (mode st) (trackPoints st) (loopSegments st) (selectedPointId st)
    (rideProgress st) (isRiding st) (isLooped st) (hasChainLift st) cs.

(* ------------------------------------------------------------------ *)
(** ** The ride tick ([useFrame] of [RideCamera]) *)

(** [Math.trunc] *)
Definition rtrunc (x : R) : R :=
  if Rle_dec 0 x then IZR (Int_part x) else - IZR (Int_part (- x)).

(** The JavaScript remainder [x % y]. *)
Definition jsMod (x y : R) : R := x - y * rtrunc (x / y).

(** One frame of the traversal driver: returns the store after the tick and
    the [maxHeightReached] ref (the climb-height tracker).  The camera
    placement that follows [setRideProgress] writes neither.  [curve] is
    [curveRef.current]; [sections], [totalArcLength] and
    [firstPeakProgress] come from the [useMemo]. *)
Definition rideTick (curve : Curve) (sections : list TrackSection)
    (totalArcLength firstPeakProgress rideSpeed delta : R)
    (st : Store) (maxHeightReached : R) : Store * R :=
  if negb (isRiding st) then (st, maxHeightReached) else
  match sections with
  | [] => (st, maxHeightReached)
  | _ :: _ =>
    match sampleHybridTrack (rideProgress st) sections curve (loopSegments st)
            (trackPoints st) (isLooped st) with
    | None => (st, maxHeightReached)
    | Some currentSample =>
        let currentHeight := vy (point (hs currentSample)) in
        let '(speed, mh) :=
          if hasChainLift st && rlt (rideProgress st) firstPeakProgress
          then (0.9 * rideSpeed, Rmax maxHeightReached currentHeight)
          else (12 * rideSpeed, maxHeightReached) in
        let progressDelta := (speed * delta) / totalArcLength in
        let newProgress := rideProgress st + progressDelta in
        if rle 1 newProgress then
          if isLooped st then
            let np := jsMod newProgress 1 in
            let mh' := if hasChainLift st then vy (getPoint curve 0) else mh in
            (setRideProgress np st, mh')
          else (stopRide st, mh)
        else (setRideProgress newProgress st, mh)
    end
  end.

(* ------------------------------------------------------------------ *)
(** ** [importCoaster] *)

(** Property access [v.k]: [None] is [undefined]. Objects from
    [JSON.parse] keep the last of duplicated keys. *)
Definition getProp (v : json) (k : string) : option json :=
  match v with
  | JObj kvs => fold_left (fun acc kv => if String.eqb (fst kv) k then Some (snd kv) else acc) kvs None
  | _ => None
  end.

(** JavaScript truthiness ([Boolean(v)], [!v], [v || d]). *)
Definition truthy (v : option json) : bool :=
  match v with
  | None | Some JNull => false
  | Some (JBool b) => b
  | Some (JNum n) => if Req_EM_T n 0 then false else true
  | Some (JStr s) => negb (String.eqb s EmptyString)
  | Some (JArr _) | Some (JObj _) | Some (JInf _) => true
  end.

(** [typeof v === 'object'] for a defined [v] ([null] included). *)
Definition isObjectType (v : json) : bool :=
  match v with JNull | JArr _ | JObj _ => true | _ => false end.

(** [typeof v === 'number'] ([Infinity] included). *)
Definition isNumber (v : option json) : bool :=
  match v with Some (JNum _) | Some (JInf _) => true | _ => false end.

Definition isString (v : option json) : bool :=
  match v with Some (JStr _) => true | _ => false end.

(** [Array.isArray(v) && v.length === 3] *)
Definition isArray3 (v : option json) : bool :=
  match v with Some (JArr xs) => Nat.eqb (List.length xs) 3 | _ => false end.

(** The code points [String.prototype.trim] and [parseInt] skip
    (ECMAScript's WhiteSpace and LineTerminator), as UTF-8 byte sequences:
    U+0009 to U+000D, U+0020, U+00A0, U+1680, U+2000 to U+200A, U+2028,
    U+2029, U+202F, U+205F, U+3000 and U+FEFF. *)
Definition wsSeqs : list (list ascii) :=
  [["009"%char]; ["010"%char]; ["011"%char]; ["012"%char]; ["013"%char]; ["032"%char];
   ["194"%char; "160"%char];
   ["225"%char; "154"%char; "128"%char]] ++
  map (fun n => ["226"%char; "128"%char; ascii_of_nat n]) (seq 128 11) ++
  [["226"%char; "128"%char; "168"%char]; ["226"%char; "128"%char; "169"%char];
   ["226"%char; "128"%char; "175"%char]; ["226"%char; "129"%char; "159"%char];
   ["227"%char; "128"%char; "128"%char]; ["239"%char; "187"%char; "191"%char]].

Fixpoint startsWith (p cs : list ascii) : bool :=
  match p, cs with
  | [], _ => true
  | b :: p', c :: cs' => Ascii.eqb b c && startsWith p' cs'
  | _ :: _, [] => false
  end.

(** The byte length of the sequence of [seqs] that [cs] starts with, [0]
    if none. *)
Definition wsLen (seqs : list (list ascii)) (cs : list ascii) : nat :=
  match find (fun p => startsWith p cs) seqs with
  | Some p => List.length p
  | None => O
  end.

(** Drops leading sequences of [seqs]; [fuel] bounds the number of steps. *)
Fixpoint dropSeqs (seqs : list (list ascii)) (fuel : nat) (cs : list ascii) : list ascii :=
  match fuel with
  | O => cs
  | S f =>
      match wsLen seqs cs with
      | O => cs
      | k => dropSeqs seqs f (skipn k cs)
      end
  end.

(** Leading white space removed. *)
Definition dropWs (cs : list ascii) : list ascii :=
  dropSeqs wsSeqs (List.length cs) cs.

(** [String.prototype.trim]: leading and trailing white space removed
    (the trailing code points are matched reversed on the reversed bytes). *)
Definition trim (s : string) : string :=
  let l := dropWs (list_ascii_of_string s) in
  string_of_list_ascii
    (rev (dropSeqs (map (@rev ascii) wsSeqs) (List.length l) (rev l))).

(** The per-point checks of the [for (const pt of coaster.trackPoints)] loop. *)
Definition validTrackPoint (pt : json) : bool :=
  truthy (Some pt) && isObjectType pt &&
  (match getProp pt "position" with
   | Some (JArr xs) =>
       Nat.eqb (List.length xs) 3 &&
       (* [typeof n === 'number' && isFinite(n)]: [JInf] is not finite *)
       forallb (fun n => match n with JNum _ => true | _ => false end) xs
   | _ => false
   end) &&
  isNumber (getProp pt "tilt") &&
  isString (getProp pt "id") &&
  (if truthy (getProp pt "loopMeta") then
     match getProp pt "loopMeta" with
     | Some lm =>
         isArray3 (getProp lm "entryPos") && isArray3 (getProp lm "forward") &&
         isArray3 (getProp lm "up") && isArray3 (getProp lm "right") &&
         isNumber (getProp lm "radius") && isNumber (getProp lm "theta")
     | None => false
     end
   else true).

(** The store together with [localStorage]: [storage] is the array last
    given to [persistSavedCoasters], whose [JSON.stringify] is the stored
    text. *)
Record Env := mkEnv {
  store : Store;
  storage : list SavedCoaster
}.

(** [loadSavedCoasters()]: [JSON.parse] of the stored text. *)
Definition loadSavedCoasters (env : Env) : list SavedCoaster :=
  map storedCoaster (storage env).

(** [importCoaster(jsonString)] on the result of [JSON.parse(jsonString)]
    ([None] when it throws). [newId] and [now] stand for
    [`coaster-${Date.now()}`] and [Date.now()]. *)
Definition importCoaster (parsed : option json) (newId : string) (now : R) (env : Env)
    : bool * Env :=
  match parsed with
  | None => (false, env)
  | Some coaster =>
      if negb (truthy (Some coaster) && isObjectType coaster) then (false, env) else
      match getProp coaster "name" with
      | Some (JStr name) =>
          if String.eqb (trim name) EmptyString then (false, env) else
          match getProp coaster "trackPoints" with
          | Some (JArr pts) =>
              if negb (forallb validTrackPoint pts) then (false, env) else
              let validCoaster :=
                mkSaved newId (trim name) now pts
                  (match getProp coaster "loopSegments" with
                   | Some v => if truthy (Some v) then v else JArr []
                   | None => JArr []
                   end)
                  (truthy (getProp coaster "isLooped"))
                  (match getProp coaster "hasChainLift" with
                   | Some (JBool false) => false
                   | _ => true
                   end)
                  (truthy (getProp coaster "showWoodSupports")) in
              let coasters := loadSavedCoasters env ++ [validCoaster] in
              (true, mkEnv (setSavedCoasters coasters (store env)) coasters)
          | _ => (false, env)
          end
      | _ => (false, env)
      end
  end.

(* ------------------------------------------------------------------ *)
(** ** Tilt interpolation ([interpolateTilt] of [Track.tsx]) *)

(** [trackPoints[i].tilt]: [None] when [trackPoints[i]] is [undefined]
    (an index out of range), where reading [.tilt] throws a TypeError. *)
Definition tiltAt (pts : list TrackPoint) (i : Z) : option R :=
  if (0 <=? i)%Z then option_map tilt (nth_error pts (Z.to_nat i)) else None.

(** [interpolateTilt(trackPoints, t, isLooped)], also exported as
    [getTrackTiltAtProgress]; [None] when it throws. [Math.floor] is
    [Int_part] and the remainder [%] of two integers is [Z.rem]. *)
Definition interpolateTilt (trackPoints : list TrackPoint) (t : R) (isLooped : bool)
    : option R :=
  if Nat.ltb (List.length trackPoints) 2 then Some 0 else
  let n := List.length trackPoints in
  let scaledT := if isLooped then t * INR n else t * INR (n - 1) in
  let index := Int_part scaledT in
  let frac := scaledT - IZR index in
  if isLooped then
    let i0 := Z.rem index (Z.of_nat n) in
    let i1 := Z.rem (index + 1) (Z.of_nat n) in
    match tiltAt trackPoints i0, tiltAt trackPoints i1 with
    | Some a, Some b => Some (a * (1 - frac) + b * frac)
    | _, _ => None
    end
  else if (Z.of_nat n - 1 <=? index)%Z then tiltAt trackPoints (Z.of_nat n - 1)
  else
    match tiltAt trackPoints index, tiltAt trackPoints (index + 1) with
    | Some a, Some b => Some (a * (1 - frac) + b * frac)
    | _, _ => None
    end.

(* ------------------------------------------------------------------ *)
(** ** The other point and ride actions of the store *)

(** [updateTrackPoint(id, position)] *)
Definition updateTrackPoint (id : string) (pos : Vector3) (st : Store) : Store :=
  mkStore (mode st)
    (map (fun p => if String.eqb (tp_id p) id
                   then mkTrackPoint (tp_id p) pos (tilt p) (hasLoop p) else p)
       (trackPoints st))
    (loopSegments st) (selectedPointId st) (rideProgress st) (isRiding st)
    (isLooped st) (hasChainLift st) (savedCoasters st).

(** [updateTrackPointTilt(id, tilt)] *)
Definition updateTrackPointTilt (id : string) (t : R) (st : Store) : Store :=
  mkStore (mode st)
    (map (fun p => if String.eqb (tp_id p) id
                   then mkTrackPoint (tp_id p) (position p) t (hasLoop p) else p)
       (trackPoints st))
    (loopSegments st) (selectedPointId st) (rideProgress st) (isRiding st)
    (isLooped st) (hasChainLift st) (savedCoasters st).

(** [startRide()] *)
Definition startRide (st : Store) : Store :=
  if Nat.leb 2 (List.length (trackPoints st)) then
    mkStore Ride (trackPoints st) (loopSegments st) (selectedPointId st) 0 true
      (isLooped st) (hasChainLift st) (savedCoasters st)
  else st.

(* ------------------------------------------------------------------ *)
(** ** [firstPeakProgress] (the [useMemo] of [RideCamera]) *)

(** The locals of the scan [for (let p = 0; p <= 0.5; p += 0.01)];
    [maxHeight = -Infinity] is [None]. *)
Record PeakScan := mkPeak {
  maxHeight : option R;
  peakProgress : R;
  foundClimb : bool
}.

(** [sample.point.y > maxHeight] *)
Definition aboveMax (y : R) (m : option R) : bool :=
  match m with None => true | Some h => rlt h y end.

(** At most [iters] iterations of the scan loop, from [p]. In exact
    arithmetic the loop runs 51 times (p = 0, 0.01, ..., 0.5); with
    doubles the accumulated [p] passes 0.5 after 50 steps. Results below
    hold for every [iters]. *)
Fixpoint peakScan (iters : nat) (p : R) (sample : R -> option HybridSample)
    (s : PeakScan) : PeakScan :=
  match iters with
  | O => s
  | S k =>
      if negb (rle p 0.5) then s else
      match sample p with
      | None => peakScan k (p + 0.01) sample s
      | Some smp =>
          let fc := foundClimb s || rlt 0.1 (vy (tangent (hs smp))) in
          let s1 := if fc && aboveMax (vy (point (hs smp))) (maxHeight s)
                    then mkPeak (Some (vy (point (hs smp)))) p fc
                    else mkPeak (maxHeight s) (peakProgress s) fc in
          if fc && rlt (vy (tangent (hs smp))) (-0.1) && rlt (peakProgress s1) p then s1
          else peakScan k (p + 0.01) sample s1
      end
  end.

(** [firstPeakProgress] of the [RideCamera] [useMemo]. *)
Definition firstPeakProgress (iters : nat) (curve : Curve) (tps : list TrackPoint)
    (segs : list LoopSegment) (looped : bool) : R :=
  if Nat.ltb (List.length tps) 2 then 0.2 else
  let secs := fst (buildSections curve tps segs looped) in
  peakProgress (peakScan iters 0 (fun p => sampleHybridTrack p secs curve segs tps looped)
                  (mkPeak None 0.2 false)).

(* ------------------------------------------------------------------ *)
(** ** Point ids: [`point-${++pointCounter}`] and [parseInt] *)

Definition digitChar (d : Z) : ascii := ascii_of_nat (48 + Z.to_nat d).

(** Decimal digits of [n >= 0]; [fuel] bounds the digit count. *)
Fixpoint natDigits (fuel : nat) (n : Z) : list ascii :=
  match fuel with
  | O => []
  | S f =>
      if (n <? 10)%Z then [digitChar n]
      else natDigits f (n / 10) ++ [digitChar (n mod 10)]
  end.

(** [String(n)] for an integer-valued number [n]. *)
Definition zToString (n : Z) : string :=
  let a := Z.abs n in
  let ds := string_of_list_ascii (natDigits (S (Z.to_nat (Z.log2 a))) a) in
  if (n <? 0)%Z then String "-" ds else ds.

Definition isDigit (c : ascii) : bool :=
  let n := nat_of_ascii c in Nat.leb 48 n && Nat.leb n 57.

Fixpoint digitPrefix (cs : list ascii) : list Z :=
  match cs with
  | c :: r => if isDigit c then (Z.of_nat (nat_of_ascii c) - 48)%Z :: digitPrefix r else []
  | [] => []
  end.

Definition digitsValue (ds : list Z) : Z :=
  fold_left (fun acc d => acc * 10 + d)%Z ds 0%Z.

(** [parseInt(s, 10)]: leading white space, an optional sign, then the
    longest run of decimal digits; [None] is [NaN] (no digit). *)
Definition parseInt10 (s : string) : option Z :=
  let cs := dropWs (list_ascii_of_string s) in
  let '(sign, rest) :=
    match cs with
    | c :: r =>
        if Ascii.eqb c "-"%char then ((-1)%Z, r)
        else if Ascii.eqb c "+"%char then (1%Z, r) else (1%Z, cs)
    | [] => (1%Z, [])
    end in
  match digitPrefix rest with
  | [] => None
  | ds => Some (sign * digitsValue ds)%Z
  end.

(** [s.replace(pat, '')] for a string pattern: the first occurrence of
    [pat] is removed. *)
Fixpoint removeFirst (pat s : string) : string :=
  if String.prefix pat s then
    substring (String.length pat) (String.length s - String.length pat) s
  else
    match s with
    | EmptyString => EmptyString
    | String c r => String c (removeFirst pat r)
    end.

(** The [maxId] [reduce] of [loadCoaster]. *)
Definition maxPointId (pts : list TrackPoint) : Z :=
  fold_left (fun mx p =>
               match parseInt10 (removeFirst "point-" (tp_id p)) with
               | None => mx
               | Some num => Z.max mx num
               end) pts 0%Z.

(* ------------------------------------------------------------------ *)
(** ** Save, load, delete, export *)

(** The store and [localStorage] with the store fields the save and load
    actions also write, and the module variable [pointCounter]. *)
Record App := mkApp {
  app_env : Env;
  showWoodSupports : bool;
  currentCoasterName : option string;
  pointCounter : Z
}.

(** [addTrackPoint(position)] *)
Definition addTrackPoint (pos : Vector3) (a : App) : App :=
  let c := (pointCounter a + 1)%Z in
  let id := String.append "point-" (zToString c) in
  let st := store (app_env a) in
  mkApp
    (mkEnv (mkStore (mode st) (trackPoints st ++ [mkTrackPoint id pos 0 None])
              (loopSegments st) (selectedPointId st) (rideProgress st) (isRiding st)
              (isLooped st) (hasChainLift st) (savedCoasters st))
       (storage (app_env a)))
    (showWoodSupports a) (currentCoasterName a) c.

(** [serializeTrackPoint]: the object as [JSON.stringify] writes it
    ([hasLoop: undefined] is left out). *)
Definition serializeTrackPoint (p : TrackPoint) : json :=
  JObj ([("id"%string, JStr (tp_id p));
         ("position"%string, JArr [JNum (vx (position p)); JNum (vy (position p));
                                   JNum (vz (position p))]);
         ("tilt"%string, JNum (tilt p))] ++
        match hasLoop p with
        | Some b => [("hasLoop"%string, JBool b)]
        | None => []
        end).

(** [serializeLoopSegment] *)
Definition serializeLoopSegment (s : LoopSegment) : json :=
  JObj [("id"%string, JStr (ls_id s)); ("entryPointId"%string, JStr (entryPointId s));
        ("radius"%string, JNum (ls_radius s)); ("pitch"%string, JNum (ls_pitch s))].

(** [saveCoaster(name)]; [newId] and [now] stand for
    [`coaster-${Date.now()}`] and [Date.now()]. *)
Definition saveCoaster (name newId : string) (now : R) (a : App) : App :=
  let st := store (app_env a) in
  let sc := mkSaved newId name now (map serializeTrackPoint (trackPoints st))
              (JArr (map serializeLoopSegment (loopSegments st)))
              (isLooped st) (hasChainLift st) (showWoodSupports a) in
  let coasters := loadSavedCoasters (app_env a) ++ [sc] in
  mkApp (mkEnv (setSavedCoasters coasters st) coasters)
    (showWoodSupports a) (Some name) (pointCounter a).

(** [arr[k]] for [k] in 0, 1, 2. *)
Definition elemAt (arr : json) (k : nat) : option json :=
  match arr with
  | JArr xs => nth_error xs k
  | JObj _ => getProp arr (match k with O => "0" | 1 => "1" | _ => "2" end)
  | _ => None
  end.

(** [deserializeVector3]; [None] when a coordinate is not a finite number
    (a vector the model does not follow). *)
Definition deserializeVector3 (arr : json) : option Vector3 :=
  match elemAt arr 0, elemAt arr 1, elemAt arr 2 with
  | Some (JNum x), Some (JNum y), Some (JNum z) => Some (V3 x y z)
  | _, _, _ => None
  end.

(** [deserializeTrackPoint] throws when the entry is [null] or its
    [position] is [undefined] or [null] ([arr[0]] of those). *)
Definition throwsOnTrackPoint (e : json) : bool :=
  match e with
  | JNull => true
  | _ => match getProp e "position" with None | Some JNull => true | _ => false end
  end.

(** [deserializeTrackPoint]; [None] when a field has a type outside
    [TrackPoint]. *)
Definition deserializeTrackPoint (e : json) : option TrackPoint :=
  match getProp e "id", getProp e "position", getProp e "tilt" with
  | Some (JStr id), Some pos, Some (JNum t) =>
      match deserializeVector3 pos, getProp e "hasLoop" with
      | Some v, None => Some (mkTrackPoint id v t None)
      | Some v, Some (JBool b) => Some (mkTrackPoint id v t (Some b))
      | _, _ => None
      end
  | _, _, _ => None
  end.

(** [deserializeLoopSegment] ([pitch ?? 12]); [None] when a field has a
    type outside [LoopSegment]. *)
Definition deserializeLoopSegment (e : json) : option LoopSegment :=
  match getProp e "id", getProp e "entryPointId", getProp e "radius" with
  | Some (JStr i), Some (JStr ep), Some (JNum r) =>
      match getProp e "pitch" with
      | None | Some JNull => Some (mkLoopSegment i ep r 12)
      | Some (JNum pt) => Some (mkLoopSegment i ep r pt)
      | Some _ => None
      end
  | _, _, _ => None
  end.

(** The entries [(coaster.loopSegments || []).map] runs over; [None] when
    it throws: [.map] is not a function of a truthy non-array, and
    [serialized.id] of a [null] entry. *)
Definition loopSegmentEntries (v : json) : option (list json) :=
  if truthy (Some v) then
    match v with
    | JArr xs => if existsb (fun e => match e with JNull => true | _ => false end) xs
                 then None else Some xs
    | _ => None
    end
  else Some [].

Fixpoint allSome {A : Type} (xs : list (option A)) : option (list A) :=
  match xs with
  | [] => Some []
  | None :: _ => None
  | Some x :: rest => option_map (cons x) (allSome rest)
  end.

(** [loadCoaster(id)]. A TypeError inside the [try] is caught and leaves
    everything as it was ([Some a]): from [deserializeTrackPoint], from
    [.map] of [loopSegments], or from [p.id.replace] when an id is not a
    string. [None]: no exception, but a loaded value has a type outside
    [TrackPoint] or [LoopSegment]; the model does not follow such runs. *)
Definition loadCoaster (id : string) (a : App) : option App :=
  let st := store (app_env a) in
  match find (fun c => String.eqb (sc_id c) id) (loadSavedCoasters (app_env a)) with
  | None => Some a
  | Some coaster =>
      let tps := sc_trackPoints coaster in
      if existsb throwsOnTrackPoint tps then Some a else
      match loopSegmentEntries (sc_loopSegments coaster) with
      | None => Some a
      | Some lss =>
          if existsb (fun e => negb (isString (getProp e "id"))) tps then Some a else
          match allSome (map deserializeTrackPoint tps),
                allSome (map deserializeLoopSegment lss) with
          | Some pts, Some segs =>
              Some (mkApp
                (mkEnv (mkStore Build pts segs None 0 false (sc_isLooped coaster)
                          (sc_hasChainLift coaster) (savedCoasters st))
                   (storage (app_env a)))
                (sc_showWoodSupports coaster)
                (Some (if String.eqb (sc_name coaster) EmptyString then "Untitled"%string
                       else sc_name coaster))
                (maxPointId pts))
          | _, _ => None
          end
      end
  end.

(** [deleteCoaster(id)] *)
Definition deleteCoaster (id : string) (a : App) : App :=
  let coasters := filter (fun c => negb (String.eqb (sc_id c) id))
                    (loadSavedCoasters (app_env a)) in
  mkApp (mkEnv (setSavedCoasters coasters (store (app_env a))) coasters)
    (showWoodSupports a) (currentCoasterName a) (pointCounter a).

(** The JSON value of a saved coaster read back by [loadSavedCoasters]:
    [JSON.parse] of the text [JSON.stringify(coaster, null, 2)] gives it
    back (such a coaster has no non-finite number). *)
Definition savedToJson (c : SavedCoaster) : json :=
  JObj [("id"%string, JStr (sc_id c)); ("name"%string, JStr (sc_name c));
        ("timestamp"%string, JNum (sc_timestamp c));
        ("trackPoints"%string, JArr (sc_trackPoints c));
        ("loopSegments"%string, sc_loopSegments c);
        ("isLooped"%string, JBool (sc_isLooped c));
        ("hasChainLift"%string, JBool (sc_hasChainLift c));
        ("showWoodSupports"%string, JBool (sc_showWoodSupports c))].

(** [exportCoaster(id)], up to the [JSON.stringify]; [None] is [null]. *)
Definition exportCoaster (id : string) (a : App) : option json :=
  option_map savedToJson
    (find (fun c => String.eqb (sc_id c) id) (loadSavedCoasters (app_env a))).

(* ------------------------------------------------------------------ *)
(** ** The modelled actions as steps of the application *)

(** [setMode(mode)] *)
Definition setMode (m : CoasterMode) (st : Store) : Store :=
  mkStore m (trackPoints st) (loopSegments st) (selectedPointId st) (rideProgress st)
    (isRiding st) (isLooped st) (hasChainLift st) (savedCoasters st).

(** [selectPoint(id)] *)
Definition selectPoint (id : option string) (st : Store) : Store :=
  mkStore (mode st) (trackPoints st) (loopSegments st) id (rideProgress st)
    (isRiding st) (isLooped st) (hasChainLift st) (savedCoasters st).

(** [setIsRiding(riding)] *)
Definition setIsRiding (b : bool) (st : Store) : Store :=
  mkStore (mode st) (trackPoints st) (loopSegments st) (selectedPointId st) (rideProgress st)
    b (isLooped st) (hasChainLift st) (savedCoasters st).

(** [setIsLooped(looped)] *)
Definition setIsLooped (b : bool) (st : Store) : Store :=
  mkStore (mode st) (trackPoints st) (loopSegments st) (selectedPointId st) (rideProgress st)
    (isRiding st) b (hasChainLift st) (savedCoasters st).

(** [setHasChainLift(hasChain)] *)
Definition setHasChainLift (b : bool) (st : Store) : Store :=
  mkStore (mode st) (trackPoints st) (loopSegments st) (selectedPointId st) (rideProgress st)
    (isRiding st) (isLooped st) b (savedCoasters st).

(** [setShowWoodSupports(show)] *)
Definition setShowWoodSupports (b : bool) (a : App) : App :=
  mkApp (app_env a) b (currentCoasterName a) (pointCounter a).

(** A store action ([set] of a store field) leaves [localStorage], the
    flags outside [Store] and the module's [pointCounter] alone. *)
Definition liftStore (f : Store -> Store) (a : App) : App :=
  mkApp (mkEnv (f (store (app_env a))) (storage (app_env a)))
    (showWoodSupports a) (currentCoasterName a) (pointCounter a).

(** [importCoaster] writes the store and [localStorage]. *)
Definition liftEnv (env : Env) (a : App) : App :=
  mkApp env (showWoodSupports a) (currentCoasterName a) (pointCounter a).

(** One call of an action of [useRollerCoaster] that writes modelled
    state (the point, loop, ride, save/load and flag actions), or one
    frame of the ride tick. *)
Inductive AppStep : App -> App -> Prop :=
| St_add pos a : AppStep a (addTrackPoint pos a)
| St_update id pos a : AppStep a (liftStore (updateTrackPoint id pos) a)
| St_tilt id t a : AppStep a (liftStore (updateTrackPointTilt id t) a)
| St_remove id a : AppStep a (liftStore (removeTrackPoint id) a)
| St_loop loopId id a : AppStep a (liftStore (createLoopAtPoint loopId id) a)
| St_clear a : AppStep a (liftStore clearTrack a)
| St_start a : AppStep a (liftStore startRide a)
| St_stop a : AppStep a (liftStore stopRide a)
| St_progress p a : AppStep a (liftStore (setRideProgress p) a)
| St_tick curve secs total fpp rs delta mh a :
    AppStep a (liftStore (fun st => fst (rideTick curve secs total fpp rs delta st mh)) a)
| St_save name newId now a : AppStep a (saveCoaster name newId now a)
| St_load id a a' : loadCoaster id a = Some a' -> AppStep a a'
| St_delete id a : AppStep a (deleteCoaster id a)
| St_import parsed newId now a :
    AppStep a (liftEnv (snd (importCoaster parsed newId now (app_env a))) a)
| St_refresh a : AppStep a (liftStore (setSavedCoasters (loadSavedCoasters (app_env a))) a)
| St_mode m a : AppStep a (liftStore (setMode m) a)
| St_select id a : AppStep a (liftStore (selectPoint id) a)
| St_riding b a : AppStep a (liftStore (setIsRiding b) a)
| St_looped b a : AppStep a (liftStore (setIsLooped b) a)
| St_chain b a : AppStep a (liftStore (setHasChainLift b) a)
| St_wood b a : AppStep a (setShowWoodSupports b a).

(** States reachable from an initial one: no track points,
    [pointCounter = 0], and [savedCoasters: loadSavedCoasters()]. *)
Inductive Reachable : App -> Prop :=
| R_init a : trackPoints (store (app_env a)) = [] -> pointCounter a = 0%Z ->
    savedCoasters (store (app_env a)) = loadSavedCoasters (app_env a) -> Reachable a
| R_step a a' : Reachable a -> AppStep a a' -> Reachable a'.


(** Whether the loop map has a segment for the point. *)
Definition hasLoopSeg (segs : list LoopSegment) (p : TrackPoint) : bool :=
  match loopMapGet segs (tp_id p) with Some _ => true | None => false end.

(* ------------------------------------------------------------------ *)
(** ** Concrete scenarios *)

(** The loop frame of the C4 scenario: [forward = (1,0,0)],
    [up = (0,1,0)], [right = normalize(forward x up)] as
    [computeRollFrame] sets it, [radius = 5], [pitch = 12]. *)
Definition scenarioFrame (e : Vector3) : BarrelRollFrame :=
  mkFrame e (V3 1 0 0) (V3 0 1 0) (normalize (crossVectors (V3 1 0 0) (V3 0 1 0))) 5 12.

(** The spline through [(0,0,0)] and [(10,0,0)]: the straight line. *)
Definition lineCurve : Curve := mkCurve (fun t => V3 (10 * t) 0 0) (fun _ => V3 1 0 0).

(** Two points, a loop (radius 5, pitch 12) at the first one, open path. *)
Definition scenarioPoints : list TrackPoint :=
  [mkTrackPoint "point-1" (V3 0 0 0) 0 (Some true);
   mkTrackPoint "point-2" (V3 10 0 0) 0 None].

Definition scenarioLoops : list LoopSegment := [mkLoopSegment "loop-1" "point-1" 5 12].

(** Three points with tilts 0, 30 and -10. *)
Definition tiltedPoints : list TrackPoint :=
  [mkTrackPoint "point-1" (V3 0 0 0) 0 None;
   mkTrackPoint "point-2" (V3 10 0 0) 30 None;
   mkTrackPoint "point-3" (V3 20 5 0) (-10) None].

(** The initial application state with nothing saved. *)
Definition initialApp : App :=
  mkApp (mkEnv (mkStore Build [] [] None 0 false false true []) []) false None 0%Z.

(** The same two points without a loop. *)
Definition plainPoints : list TrackPoint :=
  [mkTrackPoint "point-1" (V3 0 0 0) 0 None;
   mkTrackPoint "point-2" (V3 10 0 0) 0 None].

(** The store while riding [plainPoints] (open path, chain lift on) at
    progress [p]. *)
Definition ridingStore (p : R) : Store :=
  mkStore Ride plainPoints [] None p true false true [].

(** The store while editing [plainPoints] (build mode, no loop yet). *)
Definition editStore : Store :=
  mkStore Build plainPoints [] None 0 false false true [].

(** An empty [localStorage] next to [editStore]. *)
Definition emptyEnv : Env := mkEnv editStore [].

(** An exported coaster with one well-formed point and no optional flags. *)
Definition onePointInput : json :=
  JObj [("name"%string, JStr "Coaster"%string);
        ("trackPoints"%string, JArr [JObj [("id"%string, JStr "point-1"%string);
                                    ("position"%string, JArr [JNum 0; JNum 0; JNum 0]);
                                    ("tilt"%string, JNum 0)]])].

(** A coaster whose only [loopSegments] entry has neither [entryPointId],
    [radius] nor [pitch]. *)
Definition badLoopsInput : json :=
  JObj [("name"%string, JStr "Coaster"%string);
        ("trackPoints"%string, JArr []);
        ("loopSegments"%string, JArr [JObj [("id"%string, JStr "loop-1"%string)]])].

(** A coaster whose [loopSegments] field is present and [null]. *)
Definition nullLoopsInput : json :=
  JObj [("name"%string, JStr "Coaster"%string);
        ("trackPoints"%string, JArr []);
        ("loopSegments"%string, JNull)].


(** An import whose only point has the tilt [1e400], which [JSON.parse]
    reads as [Infinity]. *)
Definition infTiltInput : json :=
  JObj [("name"%string, JStr "Coaster"%string);
        ("trackPoints"%string, JArr [JObj [("id"%string, JStr "point-1"%string);
                                    ("position"%string, JArr [JNum 0; JNum 0; JNum 0]);
                                    ("tilt"%string, JInf false)]])].

(* ================================================================== *)
(** * Proofs *)

(** ** Vector and angle lemmas *)

Lemma V3_eq (a b : Vector3) :
  vx a = vx b -> vy a = vy b -> vz a = vz b -> a = b.
Proof. destruct a, b; simpl; intros -> -> ->; reflexivity. Qed.

Lemma addScaledVector_0 (a v : Vector3) : addScaledVector a v 0 = a.
Proof. apply V3_eq; simpl; ring. Qed.

Lemma or_one_pos (x : R) : 0 < x -> or_one x = x.
Proof.
  intros H; unfold or_one; destruct (Req_EM_T x 0); [lra | reflexivity].
Qed.

(** Normalising a positive multiple of a unit vector gives the vector back. *)
Lemma normalize_scaled_unit (f : Vector3) (p : R) :
  dot f f = 1 -> 0 < p -> normalize (multiplyScalar f p) = f.
Proof.
  intros Hf Hp.
  assert (Hl : length (multiplyScalar f p) = p).
  { unfold length, lengthSq, dot in *; simpl.
    replace (vx f * p * (vx f * p) + vy f * p * (vy f * p) + vz f * p * (vz f * p))
      with (p * p * (vx f * vx f + vy f * vy f + vz f * vz f)) by ring.
    rewrite Hf, Rmult_1_r. apply sqrt_square. lra. }
  unfold normalize. rewrite Hl, or_one_pos by exact Hp.
  apply V3_eq; simpl; field; lra.
Qed.

Lemma normalize_unit (f : Vector3) : dot f f = 1 -> normalize f = f.
Proof.
  intros Hf.
  assert (Hl : length f = 1) by (unfold length, lengthSq; rewrite Hf; apply sqrt_1).
  unfold normalize. rewrite Hl, or_one_pos by lra.
  apply V3_eq; simpl; field.
Qed.

Lemma twoPi_pos : 0 < twoPi.
Proof. unfold twoPi. pose proof PI_RGT_0. lra. Qed.

Lemma theta_simpl (t : R) : theta t = twoPi * t - sin (twoPi * t).
Proof. unfold theta. pose proof twoPi_pos. field. lra. Qed.

Lemma theta_at_0 : theta 0 = 0.
Proof. rewrite theta_simpl, Rmult_0_r, sin_0. ring. Qed.

Lemma theta_at_1 : theta 1 = 2 * PI.
Proof.
  rewrite theta_simpl, Rmult_1_r. unfold twoPi.
  rewrite (Rmult_comm PI 2), sin_2PI. ring.
Qed.

Lemma theta_at_half : theta (1 / 2) = PI.
Proof.
  rewrite theta_simpl. unfold twoPi.
  replace (PI * 2 * (1 / 2)) with PI by field.
  rewrite sin_PI. ring.
Qed.

Lemma dThetaDt_at_0 : dThetaDt 0 = 0.
Proof. unfold dThetaDt. rewrite Rmult_0_r, cos_0. ring. Qed.

Lemma dThetaDt_at_1 : dThetaDt 1 = 0.
Proof.
  unfold dThetaDt, twoPi. rewrite Rmult_1_r, (Rmult_comm PI 2), cos_2PI. ring.
Qed.

Lemma dThetaDt_at_half : dThetaDt (1 / 2) = 4 * PI.
Proof.
  unfold dThetaDt, twoPi.
  replace (PI * 2 * (1 / 2)) with PI by field.
  rewrite cos_PI. ring.
Qed.

(** [dThetaDt] is the derivative of [theta] everywhere. *)
Lemma theta_derivative (t : R) : derivable_pt_lim theta t (dThetaDt t).
Proof.
  apply (derivable_pt_lim_ext (fun z => twoPi * z - sin (twoPi * z))).
  { intros z. symmetry. apply theta_simpl. }
  replace (dThetaDt t) with (twoPi * 1 - cos (twoPi * t) * (twoPi * 1))
    by (unfold dThetaDt; ring).
  apply (derivable_pt_lim_minus (fun z => twoPi * z) (fun z => sin (twoPi * z))).
  - apply (derivable_pt_lim_scal id twoPi t 1), derivable_pt_lim_id.
  - apply (derivable_pt_lim_comp (fun z => twoPi * z) sin t (twoPi * 1) (cos (twoPi * t))).
    + apply (derivable_pt_lim_scal id twoPi t 1), derivable_pt_lim_id.
    + apply derivable_pt_lim_sin.
Qed.

(** At a parameter where the eased angle is a whole turn and its rate is
    zero, the loop returns the entry [forward] and [up]. *)
Lemma loop_frame_at_rest (fr : BarrelRollFrame) (t : R) :
  0 < pitch fr ->
  dot (forward fr) (forward fr) = 1 ->
  dot (frame_up fr) (frame_up fr) = 1 ->
  cos (theta t) = 1 -> sin (theta t) = 0 -> dThetaDt t = 0 ->
  tangent (sampleBarrelRollAnalytically fr t) = forward fr /\
  up (sampleBarrelRollAnalytically fr t) = frame_up fr.
Proof.
  intros Hp Hf Hu Hc Hs Hd.
  unfold sampleBarrelRollAnalytically; simpl.
  rewrite Hc, Hs, Hd, !Rmult_0_r, !addScaledVector_0.
  split.
  - apply normalize_scaled_unit; assumption.
  - replace (addScaledVector (addScaledVector vzero (frame_up fr) 1) (right fr) (- 0))
      with (frame_up fr) by (apply V3_eq; simpl; ring).
    apply normalize_unit; assumption.
Qed.

(** C1: for a loop frame with [pitch > 0] and unit [forward] and [up], the
    closed-form loop evaluator returns exactly the entry [forward] as
    tangent and the entry [up] as up at [t = 0] and at [t = 1] (so within
    any tolerance, 1e-3 included); the eased angle satisfies
    [theta 0 = 0], [theta 1 = 2 pi], and its derivative (which is
    [dThetaDt]) is 0 at both ends.  The radius and the [right] vector play
    no role. *)
Theorem loop_endpoints_match_entry_frame (fr : BarrelRollFrame)
    (Hp : 0 < pitch fr)
    (Hf : dot (forward fr) (forward fr) = 1)
    (Hu : dot (frame_up fr) (frame_up fr) = 1) :
  tangent (sampleBarrelRollAnalytically fr 0) = forward fr /\
  up (sampleBarrelRollAnalytically fr 0) = frame_up fr /\
  tangent (sampleBarrelRollAnalytically fr 1) = forward fr /\
  up (sampleBarrelRollAnalytically fr 1) = frame_up fr /\
  theta 0 = 0 /\ theta 1 = 2 * PI /\
  derivable_pt_lim theta 0 0 /\ derivable_pt_lim theta 1 0.
Proof.
  destruct (loop_frame_at_rest fr 0 Hp Hf Hu) as [T0 U0];
    [rewrite theta_at_0; apply cos_0 | rewrite theta_at_0; apply sin_0 | apply dThetaDt_at_0 |].
  destruct (loop_frame_at_rest fr 1 Hp Hf Hu) as [T1 U1];
    [rewrite theta_at_1; apply cos_2PI | rewrite theta_at_1; apply sin_2PI | apply dThetaDt_at_1 |].
  repeat split; try assumption.
  - apply theta_at_0.
  - apply theta_at_1.
  - pose proof (theta_derivative 0) as D. rewrite dThetaDt_at_0 in D. exact D.
  - pose proof (theta_derivative 1) as D. rewrite dThetaDt_at_1 in D. exact D.
Qed.

Lemma loop_endpoints_match_entry_frame_witness :
  (0 < pitch (scenarioFrame vzero) /\
   dot (forward (scenarioFrame vzero)) (forward (scenarioFrame vzero)) = 1 /\
   dot (frame_up (scenarioFrame vzero)) (frame_up (scenarioFrame vzero)) = 1) /\
  tangent (sampleBarrelRollAnalytically (scenarioFrame vzero) 1) = V3 1 0 0.
Proof.
  assert (Hp : 0 < pitch (scenarioFrame vzero)) by (simpl; lra).
  assert (Hf : dot (forward (scenarioFrame vzero)) (forward (scenarioFrame vzero)) = 1)
    by (unfold dot; simpl; ring).
  assert (Hu : dot (frame_up (scenarioFrame vzero)) (frame_up (scenarioFrame vzero)) = 1)
    by (unfold dot; simpl; ring).
  split; [auto |].
  apply (loop_endpoints_match_entry_frame (scenarioFrame vzero) Hp Hf Hu).
Defined.

(** ** The loop midpoint *)

(** At [t = 1/2] the eased angle is [pi]: the loop point is half a pitch
    forward and two radii back along [right]; nothing is added along [up]. *)
Lemma loop_midpoint (fr : BarrelRollFrame) :
  point (sampleBarrelRollAnalytically fr (1 / 2)) =
  addScaledVector (addScaledVector (entryPos fr) (forward fr) (pitch fr / 2))
    (right fr) (- 2 * radius fr).
Proof.
  unfold sampleBarrelRollAnalytically; simpl.
  rewrite theta_at_half, cos_PI, sin_PI.
  apply V3_eq; simpl; field.
Qed.

Lemma scenarioFrame_right (e : Vector3) : right (scenarioFrame e) = V3 0 0 1.
Proof.
  unfold scenarioFrame; simpl.
  replace (crossVectors (V3 1 0 0) (V3 0 1 0)) with (V3 0 0 1)
    by (apply V3_eq; simpl; ring).
  apply normalize_unit. unfold dot; simpl; ring.
Qed.

Lemma scenario_midpoint (e : Vector3) :
  point (sampleBarrelRollAnalytically (scenarioFrame e) (1 / 2)) =
  V3 (vx e + 6) (vy e) (vz e - 10).
Proof.
  rewrite loop_midpoint, scenarioFrame_right. unfold scenarioFrame; simpl.
  apply V3_eq; simpl; field.
Qed.

(** C4 (counterexample): with [radius = 5], [pitch = 12],
    [forward = (1,0,0)], [up = (0,1,0)], the loop point at [s = 1/2] is at
    the entry height: its displacement along [up] is 0, which is not within
    even one radius of the claimed [2 * radius]. *)
Lemma loop_midpoint_not_raised :
  ~ (Rabs (vy (point (sampleBarrelRollAnalytically (scenarioFrame vzero) (1 / 2)))
           - vy vzero - 2 * 5) < 5).
Proof.
  rewrite scenario_midpoint. simpl.
  intros H. apply Rabs_def2 in H. lra.
Qed.

(** C4 (amended): with [radius = 5], [pitch = 12], [forward = (1,0,0)],
    [up = (0,1,0)] (so [right = (0,0,1)]), the loop point at [s = 1/2] is
    displaced from the entry position by [pitch / 2 = 6] along [forward],
    by 0 along [up], and by [-2 * radius = -10] along [right]. *)
Theorem loop_midpoint_scenario (e : Vector3) :
  let p := point (sampleBarrelRollAnalytically (scenarioFrame e) (1 / 2)) in
  vx p - vx e = 12 / 2 /\ vy p - vy e = 0 /\ vz p - vz e = - 2 * 5.
Proof.
  cbv zeta. rewrite scenario_midpoint; simpl. repeat split; field.
Qed.

(** ** Evaluating comparisons *)

Lemma rlt_true (x y : R) : x < y -> rlt x y = true.
Proof. intros H; unfold rlt; destruct (Rlt_dec x y); [reflexivity | lra]. Qed.

Lemma rlt_false (x y : R) : ~ x < y -> rlt x y = false.
Proof. intros H; unfold rlt; destruct (Rlt_dec x y); [lra | reflexivity]. Qed.

Lemma rle_true (x y : R) : x <= y -> rle x y = true.
Proof. intros H; unfold rle; destruct (Rle_dec x y); [reflexivity | lra]. Qed.

Lemma rle_false (x y : R) : ~ x <= y -> rle x y = false.
Proof. intros H; unfold rle; destruct (Rle_dec x y); [lra | reflexivity]. Qed.

Lemma length_unit_x : length (V3 1 0 0) = 1.
Proof.
  unfold length, lengthSq, dot; simpl.
  replace (1 * 1 + 0 * 0 + 0 * 0) with 1 by ring. apply sqrt_1.
Qed.

Lemma sumRange_ext (n : nat) (f g : nat -> R) :
  (forall k, (k < n)%nat -> f k = g k) -> sumRange n f = sumRange n g.
Proof.
  induction n as [|n IH]; intros H; simpl; [reflexivity |].
  rewrite (H n) by lia. rewrite IH; [reflexivity |].
  intros k Hk. apply H. lia.
Qed.

Lemma sumRange_const (n : nat) (c : R) : sumRange n (fun _ => c) = INR n * c.
Proof.
  induction n as [|n IH]; simpl sumRange; [simpl; ring |].
  rewrite IH, S_INR. ring.
Qed.

Lemma sumRange_pos (n : nat) (f : nat -> R) :
  (0 < n)%nat -> (forall k, 0 < f k) -> 0 < sumRange n f.
Proof.
  intros Hn Hf. induction n as [|n IH]; [lia |].
  simpl. destruct n as [|m].
  - simpl. specialize (Hf O). lra.
  - specialize (IH ltac:(lia)). specialize (Hf (S m)). lra.
Qed.

Lemma sumRange_nonneg (n : nat) (f : nat -> R) :
  (forall k, 0 <= f k) -> 0 <= sumRange n f.
Proof.
  intros Hf. induction n as [|n IH]; simpl; [lra |]. specialize (Hf n). lra.
Qed.

(** ** The section table of the scenario track *)

Lemma computeRollArcLength_pos (r p : R) : 0 < p -> 0 < computeRollArcLength r p.
Proof.
  intros Hp. unfold computeRollArcLength.
  apply sumRange_pos; [lia |]. intros k.
  apply sqrt_lt_R0.
  assert (0 < p / INR 100) by (apply Rdiv_lt_0_compat; [lra | apply lt_0_INR; lia]).
  nra.
Qed.

Lemma scenario_roll_frame :
  computeRollFrame lineCurve (INR 0 / INR 1) (normalize (V3 1 0 0))
    (initialUp (normalize (V3 1 0 0))) 5 12 vzero = scenarioFrame vzero.
Proof. rewrite normalize_unit by (unfold dot; simpl; ring).
  assert (Hu : initialUp (V3 1 0 0) = V3 0 1 0).
  { unfold initialUp.
    replace (subProj (V3 0 1 0) (V3 1 0 0)) with (V3 0 1 0)
      by (apply V3_eq; unfold subProj, dot; simpl; ring).
    assert (L : length (V3 0 1 0) = 1).
    { unfold length, lengthSq, dot; simpl.
      replace (0 * 0 + 1 * 1 + 0 * 0) with 1 by ring. apply sqrt_1. }
    rewrite L, rlt_false by lra.
    apply normalize_unit. unfold dot; simpl; ring. }
  rewrite Hu. unfold computeRollFrame, scenarioFrame. cbn [getPoint getTangent lineCurve].
  rewrite normalize_unit by (unfold dot; simpl; ring).
  unfold rotateUpTo. cbv zeta.
  replace (clampUnit (dot (V3 1 0 0) (V3 1 0 0))) with 1
    by (unfold clampUnit, dot, Rmin, Rmax; simpl;
        destruct (Rle_dec 1 (1 * 1 + 0 * 0 + 0 * 0)); destruct (Rle_dec _ _); lra).
  rewrite (rlt_true 0.9999 1) by lra.
  replace (subProj (V3 0 1 0) (V3 1 0 0)) with (V3 0 1 0)
    by (apply V3_eq; unfold subProj, dot; simpl; ring).
  assert (L : length (V3 0 1 0) = 1).
  { unfold length, lengthSq, dot; simpl.
    replace (0 * 0 + 1 * 1 + 0 * 0) with 1 by ring. apply sqrt_1. }
  rewrite L, rlt_true by lra.
  rewrite (normalize_unit (V3 0 1 0)) by (unfold dot; simpl; ring).
  f_equal. apply V3_eq; simpl; field.
Qed.

Lemma scenario_spline_length :
  splineSegmentLength lineCurve (INR 0 / INR 1) (INR 1 / INR 1) = 10.
Proof.
  unfold splineSegmentLength.
  rewrite (sumRange_ext _ _ (fun _ => 1)).
  { rewrite sumRange_const. simpl. ring. }
  intros k _. cbn [getPoint lineCurve].
  unfold distanceTo, length, lengthSq, dot, vsub; cbn [vx vy vz].
  rewrite (S_INR k).
  replace (INR 10) with 10 by (simpl; ring).
  replace (INR 0) with 0 by reflexivity. replace (INR 1) with 1 by reflexivity.
  match goal with |- sqrt ?e = 1 => replace e with 1 by (field) end.
  apply sqrt_1.
Qed.

Lemma scenario_sections :
  let Lr := computeRollArcLength 5 12 in
  buildSections lineCurve scenarioPoints scenarioLoops false =
  ([mkSection SecRoll 0 (Lr / (Lr + 10)) Lr (Some (scenarioFrame vzero)) None None (Some O);
    mkSection SecSpline (Lr / (Lr + 10)) 1 10 None (Some 0) (Some 1) (Some O)],
   Lr + 10).
Proof.
  intros Lr.
  assert (HL : 0 < Lr) by (apply computeRollArcLength_pos; lra).
  unfold buildSections.
  cbn -[INR Rdiv Rplus Rmult Rminus Ropp Rinv computeRollFrame computeRollArcLength
        splineSegmentLength propagateUp normalize].
  rewrite scenario_spline_length, scenario_roll_frame.
  fold Lr. unfold setProgress; simpl.
  replace (0 + Lr + 10) with (Lr + 10) by ring.
  replace (0 + Lr) with Lr by ring.
  replace (0 / (Lr + 10)) with 0 by (field; lra).
  replace ((Lr + 10) / (Lr + 10)) with 1 by (field; lra).
  replace (0 / 1) with 0 by field. replace (1 / 1) with 1 by field.
  reflexivity.
Qed.

Lemma clampProgress_id (p : R) : 0 <= p <= 0.9999 -> clampProgress p = p.
Proof.
  intros H. unfold clampProgress, Rmin, Rmax.
  destruct (Rle_dec p 0.9999); [| lra]. destruct (Rle_dec 0 p); lra.
Qed.

Lemma scenario_loop_half_sample :
  let h := sampleBarrelRollAnalytically (scenarioFrame vzero) (1 / 2) in
  tangent h = normalize (V3 12 (- (20 * PI)) 0) /\ up h = V3 0 (-1) 0.
Proof.
  cbv zeta. pose proof (scenarioFrame_right vzero) as HR.
  unfold sampleBarrelRollAnalytically. cbn [tangent up].
  rewrite theta_at_half, dThetaDt_at_half, cos_PI, sin_PI, HR.
  unfold scenarioFrame; cbn [forward frame_up radius pitch].
  split.
  - f_equal. apply V3_eq; simpl; ring.
  - replace (addScaledVector (addScaledVector vzero (V3 0 1 0) (-1)) (V3 0 0 1) (- 0))
      with (V3 0 (-1) 0) by (apply V3_eq; simpl; ring).
    apply normalize_unit. unfold dot; simpl; ring.
Qed.

Lemma dot_normalize_down (a b : R) :
  0 < a ->
  dot (normalize (V3 a b 0)) (V3 0 (-1) 0) = - b / sqrt (a * a + b * b).
Proof.
  intros Ha.
  assert (Hs : 0 < sqrt (a * a + b * b)) by (apply sqrt_lt_R0; nra).
  unfold normalize, length, lengthSq.
  replace (dot (V3 a b 0) (V3 a b 0)) with (a * a + b * b) by (unfold dot; simpl; ring).
  rewrite or_one_pos by exact Hs.
  unfold dot; simpl. field. lra.
Qed.

(** C3 (code bug, evaluated at the failing input): on the two-point open
    track [(0,0,0) -> (10,0,0)] with a loop (radius 5, pitch 12) at the
    first point, sampling the built table at the progress of the loop's
    midpoint returns a loop frame whose [up] is not perpendicular to its
    [tangent]: their dot product is [20 pi / sqrt(144 + 400 pi^2)], about
    0.98. The loop branch never re-orthogonalises [up] against the
    tangent, unlike the spline branch ([splineUp]). *)
Theorem loop_sample_up_not_perpendicular :
  let Lr := computeRollArcLength 5 12 in
  exists h,
    sampleHybridTrack (Lr / (2 * (Lr + 10)))
      (fst (buildSections lineCurve scenarioPoints scenarioLoops false))
      lineCurve scenarioLoops scenarioPoints false = Some h /\
    inRoll h = true /\
    dot (tangent (hs h)) (up (hs h)) = 20 * PI / sqrt (12 * 12 + (20 * PI) * (20 * PI)) /\
    0 < dot (tangent (hs h)) (up (hs h)).
Proof.
  intros Lr.
  assert (HL : 0 < Lr) by (apply computeRollArcLength_pos; lra).
  rewrite scenario_sections. fold Lr. cbn [fst].
  set (q := Lr / (Lr + 10)).
  assert (Hq : 0 < q) by (unfold q; apply Rdiv_lt_0_compat; lra).
  assert (Hq1 : q < 1) by (unfold q; apply Rmult_lt_reg_r with (Lr + 10); [lra |];
                           unfold Rdiv; rewrite Rmult_assoc, Rinv_l; lra).
  replace (Lr / (2 * (Lr + 10))) with (q / 2) by (unfold q; field; lra).
  unfold sampleHybridTrack, sampleSection.
  rewrite clampProgress_id by lra.
  unfold locateSection, inSection. cbn [find startProgress endProgress].
  rewrite (rle_true 0 (q / 2)), (rlt_true (q / 2) q) by lra. cbn [andb].
  cbn [sec_type rollFrame startProgress endProgress].
  replace ((q / 2 - 0) / (q - 0)) with (1 / 2) by (field; lra).
  eexists. split; [reflexivity |]. cbn [inRoll hs]. split; [reflexivity |].
  destruct scenario_loop_half_sample as [HT HU]. rewrite HT, HU.
  rewrite dot_normalize_down by lra.
  pose proof PI_RGT_0.
  assert (0 < sqrt (12 * 12 + - (20 * PI) * - (20 * PI))) by (apply sqrt_lt_R0; nra).
  replace (- (20 * PI) * - (20 * PI)) with (20 * PI * (20 * PI)) in * by ring.
  split; [field; lra |].
  apply Rdiv_lt_0_compat; lra.
Qed.

(** ** The progress partition of the section table *)

Definition sumArc (secs : list TrackSection) : R :=
  fold_right (fun s acc => arcLength s + acc) 0 secs.

Lemma sumArc_app (l1 l2 : list TrackSection) : sumArc (l1 ++ l2) = sumArc l1 + sumArc l2.
Proof. induction l1 as [|s l1 IH]; simpl; [ring | rewrite IH; ring]. Qed.

Lemma buildStep_acc (curve : Curve) segs n looped i pt st :
  accumulatedLength st = sumArc (b_sections st) ->
  accumulatedLength (buildStep curve segs n looped i pt st) =
  sumArc (b_sections (buildStep curve segs n looped i pt st)).
Proof.
  intros H. unfold buildStep.
  destruct (loopMapGet segs (tp_id pt)) as [seg|];
    destruct (Nat.leb (n - 1) i && negb looped);
    cbn [accumulatedLength b_sections]; rewrite ?sumArc_app, ?H; simpl; ring.
Qed.

Lemma buildLoop_acc (curve : Curve) segs n looped pts : forall i st,
  accumulatedLength st = sumArc (b_sections st) ->
  accumulatedLength (buildLoop curve segs n looped i pts st) =
  sumArc (b_sections (buildLoop curve segs n looped i pts st)).
Proof.
  induction pts as [|pt pts IH]; intros i st H; simpl; [exact H |].
  apply IH, buildStep_acc, H.
Qed.

(** The built table's total length is the sum of its sections' lengths. *)
Lemma buildSections_total (curve : Curve) tps segs looped :
  (2 <= List.length tps)%nat ->
  snd (buildSections curve tps segs looped) =
  sumArc (b_sections (buildLoop curve segs (List.length tps) looped 0 tps
    (mkBuild [] 0 vzero (normalize (getTangent curve 0))
       (initialUp (normalize (getTangent curve 0)))))).
Proof.
  intros H2. unfold buildSections.
  replace (Nat.ltb (List.length tps) 2) with false by (symmetry; apply Nat.ltb_ge; lia).
  cbn [snd]. apply buildLoop_acc. reflexivity.
Qed.

Lemma assign_length r t secs : List.length (assignProgress r t secs) = List.length secs.
Proof. revert r; induction secs as [|s secs IH]; intros r; simpl; [reflexivity | now rewrite IH]. Qed.

Lemma assign_first r t s secs d :
  startProgress (hd d (assignProgress r t (s :: secs))) = r / t.
Proof. reflexivity. Qed.

Lemma assign_consecutive t secs : forall r i d,
  (S i < List.length secs)%nat ->
  endProgress (nth i (assignProgress r t secs) d) =
  startProgress (nth (S i) (assignProgress r t secs) d).
Proof.
  induction secs as [|s secs IH]; intros r i d Hi; simpl in Hi; [lia |].
  destruct secs as [|s2 secs]; simpl in Hi; [lia |].
  destruct i as [|i].
  - reflexivity.
  - change (nth (S i) (assignProgress r t (s :: s2 :: secs)) d)
      with (nth i (assignProgress (r + arcLength s) t (s2 :: secs)) d).
    change (nth (S (S i)) (assignProgress r t (s :: s2 :: secs)) d)
      with (nth (S i) (assignProgress (r + arcLength s) t (s2 :: secs)) d).
    apply IH. simpl. lia.
Qed.

Lemma assign_last t secs : forall r d,
  secs <> [] ->
  endProgress (last (assignProgress r t secs) d) = (r + sumArc secs) / t.
Proof.
  induction secs as [|s secs IH]; intros r d Hne; [contradiction |].
  destruct secs as [|s2 secs].
  - simpl. f_equal. ring.
  - change (last (assignProgress r t (s :: s2 :: secs)) d)
      with (last (assignProgress (r + arcLength s) t (s2 :: secs)) d).
    rewrite IH by discriminate. cbn [sumArc fold_right]. f_equal.
    unfold sumArc. simpl. ring.
Qed.

(** C2: on every track of at least two points whose built section table
    has positive total length, the table is non-empty, its first section
    starts at progress 0, its last ends at 1, and each section ends where
    the next one starts. *)
Theorem progress_ranges_partition (curve : Curve) (tps : list TrackPoint)
    (segs : list LoopSegment) (looped : bool)
    (H2 : (2 <= List.length tps)%nat)
    (HL : 0 < snd (buildSections curve tps segs looped)) :
  let secs := fst (buildSections curve tps segs looped) in
  secs <> [] /\
  (forall d, startProgress (hd d secs) = 0) /\
  (forall d, endProgress (last secs d) = 1) /\
  (forall i d, (S i < List.length secs)%nat ->
     endProgress (nth i secs d) = startProgress (nth (S i) secs d)).
Proof.
  pose proof (buildSections_total curve tps segs looped H2) as HT.
  unfold buildSections in *.
  replace (Nat.ltb (List.length tps) 2) with false in * by (symmetry; apply Nat.ltb_ge; lia).
  cbn [fst snd] in *.
  set (raw := b_sections _) in *.
  set (L := accumulatedLength _) in *.
  assert (Hne : raw <> []) by (intros E; rewrite E in HT; simpl in HT; lra).
  cbv zeta. repeat split.
  - intros E. apply (f_equal (@List.length TrackSection)) in E.
    rewrite assign_length in E. destruct raw; [contradiction | discriminate].
  - intros d. destruct raw as [|s rest]; [contradiction |].
    rewrite assign_first. unfold Rdiv. ring.
  - intros d. rewrite assign_last by exact Hne. rewrite <- HT. field. lra.
  - intros i d Hi. rewrite assign_length in Hi. apply assign_consecutive. exact Hi.
Qed.

Lemma progress_ranges_partition_witness :
  (2 <= List.length scenarioPoints)%nat /\
  0 < snd (buildSections lineCurve scenarioPoints scenarioLoops false) /\
  (forall d, endProgress (last (fst (buildSections lineCurve scenarioPoints scenarioLoops false)) d) = 1).
Proof.
  assert (H2 : (2 <= List.length scenarioPoints)%nat) by (simpl; lia).
  assert (HL : 0 < snd (buildSections lineCurve scenarioPoints scenarioLoops false)).
  { rewrite scenario_sections. cbn [snd].
    pose proof (computeRollArcLength_pos 5 12 ltac:(lra)). lra. }
  split; [exact H2 | split; [exact HL |]].
  apply (progress_ranges_partition lineCurve scenarioPoints scenarioLoops false H2 HL).
Defined.

(** ** The ride tick *)

Lemma Int_part_bounds (x : R) : IZR (Int_part x) <= x < IZR (Int_part x) + 1.
Proof. destruct (base_Int_part x). lra. Qed.

(** For a non-negative dividend, [x % 1] lies in [0, 1). *)
Lemma jsMod_1_range (x : R) : 0 <= x -> 0 <= jsMod x 1 < 1.
Proof.
  intros Hx. unfold jsMod, rtrunc.
  replace (x / 1) with x by field.
  destruct (Rle_dec 0 x); [| lra].
  pose proof (Int_part_bounds x). lra.
Qed.

Lemma plain_sections :
  buildSections lineCurve plainPoints [] false =
  ([mkSection SecSpline 0 1 10 None (Some 0) (Some 1) (Some O)], 10).
Proof.
  unfold buildSections.
  cbn -[INR Rdiv Rplus Rmult Rminus Ropp Rinv computeRollFrame computeRollArcLength
        splineSegmentLength propagateUp normalize].
  rewrite scenario_spline_length. unfold setProgress; simpl.
  replace (0 + 10) with 10 by ring.
  replace (0 / 10) with 0 by field. replace (10 / 10) with 1 by field.
  replace (0 / 1) with 0 by field. replace (1 / 1) with 1 by field.
  reflexivity.
Qed.

(** The tick when the advanced progress reaches 1 (the current sample
    exists): a closed path wraps, an open path calls [stopRide]. *)
Lemma rideTick_end (curve : Curve) (sections : list TrackSection)
    (total fpp rs delta : R) (st : Store) (mh : R) (cur : HybridSample) :
  isRiding st = true -> sections <> [] ->
  sampleHybridTrack (rideProgress st) sections curve (loopSegments st)
    (trackPoints st) (isLooped st) = Some cur ->
  let chain := hasChainLift st && rlt (rideProgress st) fpp in
  let speed := if chain then 0.9 * rs else 12 * rs in
  let mh1 := if chain then Rmax mh (vy (point (hs cur))) else mh in
  let newP := rideProgress st + speed * delta / total in
  1 <= newP ->
  rideTick curve sections total fpp rs delta st mh =
  if isLooped st
  then (setRideProgress (jsMod newP 1) st,
        if hasChainLift st then vy (getPoint curve 0) else mh1)
  else (stopRide st, mh1).
Proof.
  intros Hr Hs Hc. cbv zeta. intros H1.
  unfold rideTick. rewrite Hr. cbn [negb].
  destruct sections as [|s0 rest]; [contradiction |].
  rewrite Hc.
  destruct (hasChainLift st && rlt (rideProgress st) fpp);
    rewrite rle_true by exact H1; reflexivity.
Qed.

Lemma plain_sample_099 :
  exists cur, sampleHybridTrack 0.99 (fst (buildSections lineCurve plainPoints [] false))
    lineCurve [] plainPoints false = Some cur.
Proof.
  rewrite plain_sections. cbn [fst].
  unfold sampleHybridTrack. cbv zeta. unfold sampleSection. rewrite clampProgress_id by lra.
  unfold locateSection, inSection. cbn [find startProgress endProgress].
  rewrite (rle_true 0 0.99), (rlt_true 0.99 1) by lra. cbn [andb].
  eexists. reflexivity.
Qed.

(** C5 (counterexample): riding the open two-point track at progress 0.99
    with chain lift on, speed multiplier 1 and a frame of 1 s, the tick
    reaches progress 2.19 >= 1 and [stopRide] sets [rideProgress] to 0:
    progress is not left at the last valid sample. *)
Lemma open_path_end_resets_progress :
  let r := rideTick lineCurve (fst (buildSections lineCurve plainPoints [] false))
             10 0.2 1 1 (ridingStore 0.99) 0 in
  rideProgress (fst r) = 0 /\ rideProgress (ridingStore 0.99) = 0.99 /\
  isRiding (fst r) = false.
Proof.
  cbv zeta. destruct plain_sample_099 as [cur Hc].
  rewrite (rideTick_end lineCurve _ 10 0.2 1 1 (ridingStore 0.99) 0 cur).
  - simpl. auto.
  - reflexivity.
  - rewrite plain_sections. discriminate.
  - exact Hc.
  - cbn [hasChainLift rideProgress ridingStore andb].
    rewrite (rlt_false 0.99 0.2) by lra. lra.
Qed.

(** C5 (amended): when a tick of a riding store (with a current sample)
    advances progress to [newP >= 1]: on a closed path [rideProgress]
    becomes [newP % 1], which lies in [0, 1), the ride continues, and with
    chain lift on the climb-height tracker is reset to the start height;
    on an open path the tick calls [stopRide], which ends the ride, returns
    to build mode and resets [rideProgress] to 0, leaving the tracker as
    the tick had it. *)
Theorem ride_tick_end_of_path (curve : Curve) (sections : list TrackSection)
    (total fpp rs delta : R) (st : Store) (mh : R) (cur : HybridSample)
    (Hr : isRiding st = true) (Hs : sections <> [])
    (Hc : sampleHybridTrack (rideProgress st) sections curve (loopSegments st)
            (trackPoints st) (isLooped st) = Some cur) :
  let chain := hasChainLift st && rlt (rideProgress st) fpp in
  let speed := if chain then 0.9 * rs else 12 * rs in
  let mh1 := if chain then Rmax mh (vy (point (hs cur))) else mh in
  let newP := rideProgress st + speed * delta / total in
  let r := rideTick curve sections total fpp rs delta st mh in
  1 <= newP ->
  (isLooped st = true ->
     rideProgress (fst r) = jsMod newP 1 /\ 0 <= rideProgress (fst r) < 1 /\
     isRiding (fst r) = true /\
     snd r = (if hasChainLift st then vy (getPoint curve 0) else mh1)) /\
  (isLooped st = false ->
     rideProgress (fst r) = 0 /\ isRiding (fst r) = false /\ mode (fst r) = Build /\
     snd r = mh1).
Proof.
  cbv zeta. intros H1.
  rewrite (rideTick_end curve sections total fpp rs delta st mh cur Hr Hs Hc H1).
  split; intros HL; rewrite HL; cbn [fst snd setRideProgress stopRide rideProgress isRiding mode].
  - split; [reflexivity |]. split; [apply jsMod_1_range; lra |].
    split; [exact Hr | reflexivity].
  - repeat split; reflexivity.
Qed.

Lemma ride_tick_end_of_path_witness :
  isRiding (ridingStore 0.99) = true /\
  rideProgress (fst (rideTick lineCurve (fst (buildSections lineCurve plainPoints [] false))
    10 0.2 1 1 (ridingStore 0.99) 0)) = 0.
Proof.
  destruct plain_sample_099 as [cur Hc].
  assert (Hs : fst (buildSections lineCurve plainPoints [] false) <> [])
    by (rewrite plain_sections; discriminate).
  split; [reflexivity |].
  apply (ride_tick_end_of_path lineCurve _ 10 0.2 1 1 (ridingStore 0.99) 0 cur
           eq_refl Hs Hc).
  - cbn [hasChainLift rideProgress ridingStore andb].
    rewrite (rlt_false 0.99 0.2) by lra. lra.
  - reflexivity.
Defined.

(** ** The path sampler *)

















(** ** Removing a track point *)

(** [removeTrackPoint] never touches [loopSegments]. *)
Lemma removeTrackPoint_loopSegments (id : string) (st : Store) :
  loopSegments (removeTrackPoint id st) = loopSegments st.
Proof. reflexivity. Qed.

(** C6 (code bug, evaluated at the failing input): in a store editing the
    two points "point-1" and "point-2", creating the loop at "point-1" and
    then removing "point-1" leaves a [LoopSegment] whose [entryPointId] is
    "point-1" while no track point has that id: [removeTrackPoint] keeps
    [loopSegments] as they are for every store and id, whereas
    [clearTrack] empties both lists together. *)
Theorem remove_point_keeps_dangling_loop :
  let st := removeTrackPoint "point-1"
              (createLoopAtPoint "loop-1" "point-1" editStore) in
  In "point-1"%string (map entryPointId (loopSegments st)) /\
  ~ In "point-1"%string (map tp_id (trackPoints st)) /\
  (forall id st0, loopSegments (removeTrackPoint id st0) = loopSegments st0) /\
  (forall st0, loopSegments (clearTrack st0) = [] /\ trackPoints (clearTrack st0) = []).
Proof.
  cbv zeta. split; [| split; [| split]].
  - simpl. left. reflexivity.
  - simpl. intros [H | H]; [discriminate | contradiction].
  - intros. apply removeTrackPoint_loopSegments.
  - intros. split; reflexivity.
Qed.

(** ** [importCoaster] *)


(** What an accepted import has checked, and what it stores. *)
Lemma importCoaster_true_inv (parsed : option json) (newId : string) (now : R) (env : Env) :
  fst (importCoaster parsed newId now env) = true ->
  exists c name pts,
    parsed = Some c /\ isObjectType c = true /\
    getProp c "name" = Some (JStr name) /\ trim name <> EmptyString /\
    getProp c "trackPoints" = Some (JArr pts) /\
    forallb validTrackPoint pts = true /\
    let sc := mkSaved newId (trim name) now pts
                (match getProp c "loopSegments" with
                 | Some v => if truthy (Some v) then v else JArr []
                 | None => JArr []
                 end)
                (truthy (getProp c "isLooped"))
                (match getProp c "hasChainLift" with
                 | Some (JBool false) => false
                 | _ => true
                 end)
                (truthy (getProp c "showWoodSupports")) in
    snd (importCoaster parsed newId now env) =
      mkEnv (setSavedCoasters (loadSavedCoasters env ++ [sc]) (store env))
        (loadSavedCoasters env ++ [sc]).
Proof.
  unfold importCoaster.
  destruct parsed as [c|]; [| discriminate].
  destruct (truthy (Some c) && isObjectType c) eqn:Hobj; cbn [negb]; [| discriminate].
  destruct (getProp c "name") as [[| | | n | | |]|] eqn:Hn; try discriminate.
  destruct (String.eqb (trim n) EmptyString) eqn:Ht; [discriminate |].
  destruct (getProp c "trackPoints") as [[| | | | pts | |]|] eqn:Hp; try discriminate.
  destruct (forallb validTrackPoint pts) eqn:Hv; cbn [negb]; [| discriminate].
  intros _. exists c, n, pts.
  apply andb_prop in Hobj as [_ Hobj].
  repeat split; auto.
  intros E. rewrite E in Ht. discriminate.
Qed.






(** [C9]. A successful import appends one record to the saved list and mirrors
    the list into the store; that record's [hasChainLift] is [false] exactly
    when the input's [hasChainLift] is the boolean [false] (so absent, [null]
    or any other value gives [true]), while [isLooped] and [showWoodSupports]
    are the JavaScript truthiness of the input's fields, [false] when absent. *)
Theorem import_flag_defaults (parsed : option json) (newId : string) (now : R) (env : Env) :
  fst (importCoaster parsed newId now env) = true ->
  exists c sc,
    parsed = Some c /\
    storage (snd (importCoaster parsed newId now env)) = loadSavedCoasters env ++ [sc] /\
    savedCoasters (store (snd (importCoaster parsed newId now env))) =
      storage (snd (importCoaster parsed newId now env)) /\
    (sc_hasChainLift sc = false <-> getProp c "hasChainLift" = Some (JBool false)) /\
    sc_isLooped sc = truthy (getProp c "isLooped") /\
    sc_showWoodSupports sc = truthy (getProp c "showWoodSupports") /\
    (getProp c "isLooped" = None -> sc_isLooped sc = false) /\
    (getProp c "showWoodSupports" = None -> sc_showWoodSupports sc = false).
Proof.
  intros Ht.
  destruct (importCoaster_true_inv parsed newId now env Ht)
    as (c & name & pts & Hc & _ & _ & _ & _ & _ & E).
  cbv zeta in E. rewrite E. clear E.
  eexists c, _. split; [exact Hc |].
  split; [reflexivity |]. split; [reflexivity |].
  cbn [sc_hasChainLift sc_isLooped sc_showWoodSupports].
  split.
  { destruct (getProp c "hasChainLift") as [[| [] | | | | |]|]; split; intros H;
      try discriminate; reflexivity. }
  split; [reflexivity |]. split; [reflexivity |].
  split; intros H; rewrite H; reflexivity.
Qed.

Lemma import_flag_defaults_witness :
  fst (importCoaster (Some onePointInput) "coaster-1" 1 emptyEnv) = true /\
  exists sc,
    storage (snd (importCoaster (Some onePointInput) "coaster-1" 1 emptyEnv)) = [sc] /\
    sc_hasChainLift sc = true /\ sc_isLooped sc = false /\ sc_showWoodSupports sc = false.
Proof.
  assert (Ht : fst (importCoaster (Some onePointInput) "coaster-1" 1 emptyEnv) = true)
    by (vm_compute; reflexivity).
  split; [exact Ht |].
  destruct (import_flag_defaults (Some onePointInput) "coaster-1" 1 emptyEnv Ht)
    as (c & sc & Hc & Hs & _ & Hch & Hl & Hw & Hl0 & Hw0).
  injection Hc as <-.
  exists sc. split; [exact Hs |].
  split.
  { destruct (sc_hasChainLift sc); [reflexivity |].
    pose proof (proj1 Hch eq_refl) as H. vm_compute in H. discriminate H. }
  split; [apply Hl0; reflexivity | apply Hw0; reflexivity].
Defined.

(** [C10] (amended). [loopSegments] is never checked: an input whose only
    [loopSegments] entry has no [entryPointId], [radius] or [pitch] is accepted
    and that array is stored as it is; on every successful import the stored
    [loopSegments] is the input's field when it is truthy and [[]] otherwise,
    so [[]] replaces an absent field and also a present falsy one ([null],
    [false], [0], [""]). *)
Theorem import_stores_loopSegments_unchecked :
  (fst (importCoaster (Some badLoopsInput) "coaster-1" 1 emptyEnv) = true /\
   exists sc,
     storage (snd (importCoaster (Some badLoopsInput) "coaster-1" 1 emptyEnv)) = [sc] /\
     sc_loopSegments sc = JArr [JObj [("id"%string, JStr "loop-1")]] /\
     getProp (JObj [("id"%string, JStr "loop-1")]) "entryPointId" = None /\
     getProp (JObj [("id"%string, JStr "loop-1")]) "radius" = None /\
     getProp (JObj [("id"%string, JStr "loop-1")]) "pitch" = None) /\
  (forall parsed newId now env,
     fst (importCoaster parsed newId now env) = true ->
     exists c sc,
       parsed = Some c /\
       storage (snd (importCoaster parsed newId now env)) = loadSavedCoasters env ++ [sc] /\
       sc_loopSegments sc =
         match getProp c "loopSegments" with
         | Some v => if truthy (Some v) then v else JArr []
         | None => JArr []
         end).
Proof.
  split.
  - split; [vm_compute; reflexivity |].
    eexists. split; [vm_compute; reflexivity |].
    repeat split; reflexivity.
  - intros parsed newId now env Ht.
    destruct (importCoaster_true_inv parsed newId now env Ht)
      as (c & name & pts & Hc & _ & _ & _ & _ & _ & E).
    cbv zeta in E. rewrite E.
    eexists c, _. split; [exact Hc |]. split; reflexivity.
Qed.

Lemma import_stores_loopSegments_unchecked_witness :
  fst (importCoaster (Some onePointInput) "coaster-1" 1 emptyEnv) = true /\
  exists sc,
    storage (snd (importCoaster (Some onePointInput) "coaster-1" 1 emptyEnv)) = [sc] /\
    sc_loopSegments sc = JArr [].
Proof.
  assert (Ht : fst (importCoaster (Some onePointInput) "coaster-1" 1 emptyEnv) = true)
    by (vm_compute; reflexivity).
  split; [exact Ht |].
  destruct (proj2 import_stores_loopSegments_unchecked
              (Some onePointInput) "coaster-1"%string 1 emptyEnv Ht) as (c & sc & Hc & Hs & Hl).
  injection Hc as <-.
  exists sc. split; [exact Hs |].
  rewrite Hl. reflexivity.
Defined.

(** [C10] (counterexample). A [loopSegments] field that is present but [null]
    is not stored as it is: the import succeeds and stores [[]]. *)
Lemma import_replaces_present_null_loopSegments :
  getProp nullLoopsInput "loopSegments" = Some JNull /\
  fst (importCoaster (Some nullLoopsInput) "coaster-1" 1 emptyEnv) = true /\
  exists sc,
    storage (snd (importCoaster (Some nullLoopsInput) "coaster-1" 1 emptyEnv)) = [sc] /\
    sc_loopSegments sc = JArr [] /\ sc_loopSegments sc <> JNull.
Proof.
  split; [reflexivity |].
  split; [vm_compute; reflexivity |].
  eexists. split; [vm_compute; reflexivity |].
  split; [reflexivity | discriminate].
Qed.

(** ** [interpolateTilt] *)

Lemma Int_part_of_Z (z : Z) (f : R) : 0 <= f < 1 -> Int_part (IZR z + f) = z.
Proof. intros Hf. symmetry. apply Int_part_spec. lra. Qed.

Lemma Int_part_shift (x : R) (z : Z) : Int_part (x + IZR z) = (Int_part x + z)%Z.
Proof.
  symmetry. apply Int_part_spec. rewrite plus_IZR.
  pose proof (Int_part_bounds x). lra.
Qed.

Lemma Int_part_nonneg (x : R) : 0 <= x -> (0 <= Int_part x)%Z.
Proof.
  intros Hx. pose proof (Int_part_bounds x) as [_ H].
  assert (IZR (-1) < IZR (Int_part x)) by lra.
  apply lt_IZR in H0. lia.
Qed.

Lemma Int_part_negative (x : R) : x < 0 -> (Int_part x <= -1)%Z.
Proof.
  intros Hx. pose proof (Int_part_bounds x) as [H _].
  assert (IZR (Int_part x) < IZR 0) by lra.
  apply lt_IZR in H0. lia.
Qed.

Lemma Int_part_INR (k : nat) : Int_part (INR k) = Z.of_nat k.
Proof.
  rewrite INR_IZR_INZ. replace (IZR (Z.of_nat k)) with (IZR (Z.of_nat k) + 0) by ring.
  apply Int_part_of_Z. lra.
Qed.

Lemma tiltAt_in (pts : list TrackPoint) (i : Z) :
  (0 <= i < Z.of_nat (List.length pts))%Z ->
  exists p, In p pts /\ tiltAt pts i = Some (tilt p).
Proof.
  intros Hi. unfold tiltAt.
  destruct (Z.leb_spec 0 i); [| lia].
  destruct (nth_error pts (Z.to_nat i)) as [p|] eqn:E.
  - exists p. split; [eapply nth_error_In; eauto | reflexivity].
  - apply nth_error_None in E. lia.
Qed.

Lemma tiltAt_negative (pts : list TrackPoint) (i : Z) : (i < 0)%Z -> tiltAt pts i = None.
Proof. intros Hi. unfold tiltAt. destruct (Z.leb_spec 0 i); [lia | reflexivity]. Qed.

Lemma tiltAt_nat (pts : list TrackPoint) (k : nat) :
  tiltAt pts (Z.of_nat k) = option_map tilt (nth_error pts k).
Proof.
  unfold tiltAt. destruct (Z.leb_spec 0 (Z.of_nat k)); [| lia].
  rewrite Znat.Nat2Z.id. reflexivity.
Qed.

(** A convex combination of two values in [[m, M]] stays in [[m, M]]. *)
Lemma convex_in_range (m M a b f : R) :
  m <= a <= M -> m <= b <= M -> 0 <= f < 1 ->
  m <= a * (1 - f) + b * f <= M.
Proof. intros Ha Hb Hf. split; nra. Qed.

(** On an open path the tilt at [t = k / (n - 1)] is the tilt of point
    [k] (the control points are interpolated exactly), and every [t >= 1]
    gives the tilt of the last point. *)
Theorem interpolateTilt_open_control_points (pts : list TrackPoint) (k : nat)
    (Hn : (2 <= List.length pts)%nat) (Hk : (k <= List.length pts - 1)%nat) :
  interpolateTilt pts (INR k / INR (List.length pts - 1)) false =
    option_map tilt (nth_error pts k) /\
  (forall t, 1 <= t ->
     interpolateTilt pts t false = option_map tilt (nth_error pts (List.length pts - 1))).
Proof.
  assert (Hm : INR (List.length pts - 1) >= 1).
  { replace 1 with (INR 1) by reflexivity. apply Rle_ge, le_INR. lia. }
  unfold interpolateTilt.
  destruct (Nat.ltb_spec (List.length pts) 2); [lia |]. cbv zeta.
  split.
  - replace (INR k / INR (List.length pts - 1) * INR (List.length pts - 1)) with (INR k)
      by (field; lra).
    rewrite Int_part_INR.
    destruct (Z.leb_spec (Z.of_nat (List.length pts) - 1) (Z.of_nat k)).
    + replace (Z.of_nat (List.length pts) - 1)%Z with (Z.of_nat k) by lia.
      apply tiltAt_nat.
    + rewrite tiltAt_nat.
      replace (Z.of_nat k + 1)%Z with (Z.of_nat (S k)) by lia. rewrite tiltAt_nat.
      destruct (nth_error pts k) as [a|] eqn:Ea; [| reflexivity].
      destruct (nth_error pts (S k)) as [b|] eqn:Eb.
      * cbn [option_map]. rewrite INR_IZR_INZ. f_equal. ring.
      * apply nth_error_None in Eb. lia.
  - intros t Ht.
    destruct (Z.leb_spec (Z.of_nat (List.length pts) - 1) (Int_part (t * INR (List.length pts - 1)))).
    + replace (Z.of_nat (List.length pts) - 1)%Z with (Z.of_nat (List.length pts - 1)) by lia.
      apply tiltAt_nat.
    + exfalso.
      assert (Hge : IZR (Z.of_nat (List.length pts - 1)) <= t * INR (List.length pts - 1)).
      { rewrite <- INR_IZR_INZ. nra. }
      pose proof (Int_part_bounds (t * INR (List.length pts - 1))) as [_ Hb].
      assert (IZR (Z.of_nat (List.length pts - 1)) < IZR (Int_part (t * INR (List.length pts - 1)) + 1))
        by (rewrite plus_IZR; lra).
      apply lt_IZR in H1. lia.
Qed.

Lemma interpolateTilt_open_control_points_witness :
  interpolateTilt tiltedPoints (INR 1 / INR (List.length tiltedPoints - 1)) false = Some 30 /\
  interpolateTilt tiltedPoints 2 false = Some (-10).
Proof.
  destruct (interpolateTilt_open_control_points tiltedPoints 1 ltac:(simpl; lia) ltac:(simpl; lia))
    as [H1 H2].
  split; [rewrite H1; reflexivity | rewrite (H2 2 ltac:(lra)); reflexivity].
Defined.

(** For [t >= 0] and at least two points the interpolated tilt exists and
    lies within the range of the points' tilts, on open and closed paths. *)
Theorem interpolateTilt_within_tilt_range (pts : list TrackPoint) (t : R) (looped : bool)
    (m M : R) (Hn : (2 <= List.length pts)%nat) (Ht : 0 <= t)
    (Hr : forall p, In p pts -> m <= tilt p <= M) :
  exists v, interpolateTilt pts t looped = Some v /\ m <= v <= M.
Proof.
  unfold interpolateTilt.
  destruct (Nat.ltb_spec (List.length pts) 2); [lia |]. cbv zeta.
  set (n := List.length pts) in *.
  set (sc := if looped then t * INR n else t * INR (n - 1)).
  assert (Hsc : 0 <= sc).
  { unfold sc. destruct looped; apply Rmult_le_pos; auto; apply pos_INR. }
  pose proof (Int_part_nonneg sc Hsc) as Hi0.
  pose proof (Int_part_bounds sc) as Hb.
  assert (Hf : 0 <= sc - IZR (Int_part sc) < 1) by lra.
  destruct looped.
  - assert (Hr0 : (0 <= Z.rem (Int_part sc) (Z.of_nat n) < Z.of_nat n)%Z).
    { rewrite Z.rem_mod_nonneg by lia. apply Z.mod_pos_bound. lia. }
    assert (Hr1 : (0 <= Z.rem (Int_part sc + 1) (Z.of_nat n) < Z.of_nat n)%Z).
    { rewrite Z.rem_mod_nonneg by lia. apply Z.mod_pos_bound. lia. }
    destruct (tiltAt_in pts _ Hr0) as (p0 & Hp0 & E0).
    destruct (tiltAt_in pts _ Hr1) as (p1 & Hp1 & E1).
    rewrite E0, E1. eexists. split; [reflexivity |].
    apply convex_in_range; auto.
  - destruct (Z.leb_spec (Z.of_nat n - 1) (Int_part sc)).
    + destruct (tiltAt_in pts (Z.of_nat n - 1)) as (p & Hp & E); [lia |].
      rewrite E. eexists. split; [reflexivity | auto].
    + destruct (tiltAt_in pts (Int_part sc)) as (p0 & Hp0 & E0); [lia |].
      destruct (tiltAt_in pts (Int_part sc + 1)) as (p1 & Hp1 & E1); [lia |].
      rewrite E0, E1. eexists. split; [reflexivity |].
      apply convex_in_range; auto.
Qed.

Lemma interpolateTilt_within_tilt_range_witness :
  exists v, interpolateTilt tiltedPoints 0.25 true = Some v /\ -10 <= v <= 30.
Proof.
  apply (interpolateTilt_within_tilt_range tiltedPoints 0.25 true (-10) 30).
  - simpl. lia.
  - lra.
  - intros p Hp. simpl in Hp.
    destruct Hp as [<- | [<- | [<- | []]]]; simpl; lra.
Defined.

(** On a closed path with [n >= 2] points the tilt is periodic with period
    1 for [t >= 0], and at [t = k / n] it is the tilt of point [k mod n]. *)
Theorem interpolateTilt_closed_periodic (pts : list TrackPoint)
    (Hn : (2 <= List.length pts)%nat) :
  (forall t, 0 <= t -> interpolateTilt pts (t + 1) true = interpolateTilt pts t true) /\
  (forall k : nat, interpolateTilt pts (INR k / INR (List.length pts)) true =
                   option_map tilt (nth_error pts (k mod List.length pts))).
Proof.
  assert (Hpos : INR (List.length pts) > 0).
  { apply lt_0_INR. lia. }
  unfold interpolateTilt.
  destruct (Nat.ltb_spec (List.length pts) 2); [lia |]. cbv zeta.
  split.
  - intros t Ht.
    replace ((t + 1) * INR (List.length pts)) with
      (t * INR (List.length pts) + IZR (Z.of_nat (List.length pts)))
      by (rewrite <- INR_IZR_INZ; ring).
    rewrite Int_part_shift.
    assert (H0 : (0 <= Int_part (t * INR (List.length pts)))%Z)
      by (apply Int_part_nonneg; apply Rmult_le_pos; lra).
    rewrite !Z.rem_mod_nonneg by lia.
    set (I := Int_part (t * INR (List.length pts))) in *.
    set (N := Z.of_nat (List.length pts)).
    assert (E1 : ((I + N) mod N = I mod N)%Z).
    { replace (I + N)%Z with (I + 1 * N)%Z by ring. apply Z.mod_add. lia. }
    assert (E2 : ((I + N + 1) mod N = (I + 1) mod N)%Z).
    { replace (I + N + 1)%Z with (I + 1 + 1 * N)%Z by ring. apply Z.mod_add. lia. }
    rewrite E1, E2.
    rewrite plus_IZR. unfold N. rewrite <- INR_IZR_INZ.
    replace (t * INR (List.length pts) + INR (List.length pts) - (IZR I + INR (List.length pts)))
      with (t * INR (List.length pts) - IZR I) by ring.
    reflexivity.
  - intros k.
    replace (INR k / INR (List.length pts) * INR (List.length pts)) with (INR k)
      by (field; lra).
    rewrite Int_part_INR.
    rewrite !Z.rem_mod_nonneg by lia.
    replace (Z.of_nat k mod Z.of_nat (List.length pts))%Z
      with (Z.of_nat (k mod List.length pts)) by (rewrite Znat.Nat2Z.inj_mod; reflexivity).
    rewrite tiltAt_nat.
    destruct (nth_error pts (k mod List.length pts)) as [a|] eqn:Ea.
    + destruct (tiltAt_in pts ((Z.of_nat k + 1) mod Z.of_nat (List.length pts)))
        as (p1 & _ & E1).
      { apply Z.mod_pos_bound. lia. }
      rewrite E1. cbn [option_map]. rewrite INR_IZR_INZ. f_equal. ring.
    + apply nth_error_None in Ea.
      pose proof (Nat.mod_upper_bound k (List.length pts)). lia.
Qed.

Lemma interpolateTilt_closed_periodic_witness :
  interpolateTilt tiltedPoints (INR 4 / INR (List.length tiltedPoints)) true = Some 30 /\
  interpolateTilt tiltedPoints (0.5 + 1) true = interpolateTilt tiltedPoints 0.5 true.
Proof.
  destruct (interpolateTilt_closed_periodic tiltedPoints ltac:(simpl; lia)) as [H1 H2].
  split; [rewrite H2; reflexivity | apply H1; lra].
Defined.

(** With at least two points, a negative [t] throws (it reads [.tilt] of
    [trackPoints[i]] for a negative [i]) on open and closed paths. *)
Theorem interpolateTilt_negative_throws (pts : list TrackPoint) (t : R) (looped : bool)
    (Hn : (2 <= List.length pts)%nat) (Ht : t < 0) :
  interpolateTilt pts t looped = None.
Proof.
  unfold interpolateTilt.
  destruct (Nat.ltb_spec (List.length pts) 2); [lia |]. cbv zeta.
  assert (Hpos : INR (List.length pts) > 0) by (apply lt_0_INR; lia).
  assert (Hpos1 : INR (List.length pts - 1) > 0) by (apply lt_0_INR; lia).
  destruct looped.
  - set (i := Int_part (t * INR (List.length pts))).
    assert (Hi : (i <= -1)%Z) by (apply Int_part_negative; nra).
    assert (Hnz : Z.of_nat (List.length pts) <> 0%Z) by lia.
    pose proof (Z.rem_nonpos i (Z.of_nat (List.length pts)) Hnz ltac:(lia)) as R0.
    destruct (Z.eq_dec (Z.rem i (Z.of_nat (List.length pts))) 0) as [E0 | E0].
    + apply Z.rem_divide in E0 as [q Hq]; [| exact Hnz].
      assert (R1 : (Z.rem (i + 1) (Z.of_nat (List.length pts)) < 0)%Z).
      { pose proof (Z.rem_nonpos (i + 1) (Z.of_nat (List.length pts)) Hnz ltac:(lia)) as R1.
        destruct (Z.eq_dec (Z.rem (i + 1) (Z.of_nat (List.length pts))) 0) as [E1 | E1].
        - apply Z.rem_divide in E1 as [r Hr]; [| exact Hnz].
          assert (Hd : ((r - q) * Z.of_nat (List.length pts) = 1)%Z) by lia.
          destruct (Z.le_gt_cases (r - q) 0); nia.
        - lia. }
      rewrite (tiltAt_negative _ _ R1).
      destruct (tiltAt pts _); reflexivity.
    + rewrite (tiltAt_negative pts (Z.rem i (Z.of_nat (List.length pts)))) by lia.
      reflexivity.
  - set (i := Int_part (t * INR (List.length pts - 1))).
    assert (Hi : (i <= -1)%Z) by (apply Int_part_negative; nra).
    destruct (Z.leb_spec (Z.of_nat (List.length pts) - 1) i); [lia |].
    rewrite (tiltAt_negative pts i) by lia. reflexivity.
Qed.

Lemma interpolateTilt_negative_throws_witness :
  interpolateTilt tiltedPoints (-0.5) true = None /\
  interpolateTilt tiltedPoints (-0.5) false = None.
Proof.
  split; apply interpolateTilt_negative_throws; simpl; (lia || lra).
Defined.

(** ** Size of the section table *)

Lemma rle_spec (x y : R) : (rle x y = true /\ x <= y) \/ (rle x y = false /\ y < x).
Proof. unfold rle. destruct (Rle_dec x y); [left | right]; split; auto; lra. Qed.

Lemma rlt_spec (x y : R) : (rlt x y = true /\ x < y) \/ (rlt x y = false /\ y <= x).
Proof. unfold rlt. destruct (Rlt_dec x y); [left | right]; split; auto; lra. Qed.

Lemma buildStep_length (curve : Curve) segs n looped i pt st :
  List.length (b_sections (buildStep curve segs n looped i pt st)) =
  (List.length (b_sections st) + (if hasLoopSeg segs pt then 1 else 0) +
   (if Nat.leb (n - 1) i && negb looped then 0 else 1))%nat.
Proof.
  unfold buildStep, hasLoopSeg. cbv zeta.
  destruct (loopMapGet segs (tp_id pt));
    destruct (Nat.leb (n - 1) i && negb looped); cbn [b_sections];
    rewrite ?length_app; cbn [List.length]; lia.
Qed.

Lemma buildLoop_length (curve : Curve) segs n looped pts : forall i st,
  List.length (b_sections (buildLoop curve segs n looped i pts st)) =
  (List.length (b_sections st) + List.length (filter (hasLoopSeg segs) pts) +
   (if looped then List.length pts else Nat.min (List.length pts) (n - 1 - i)))%nat.
Proof.
  induction pts as [|pt pts IH]; intros i st; cbn [buildLoop].
  - destruct looped; cbn; lia.
  - rewrite IH, buildStep_length. cbn [filter List.length].
    destruct (hasLoopSeg segs pt); cbn [List.length];
      destruct looped; cbn [negb andb];
      try (destruct (Nat.leb_spec (n - 1) i)); cbn [negb andb]; lia.
Qed.

Lemma buildSections_length (curve : Curve) tps segs looped :
  (2 <= List.length tps)%nat ->
  List.length (fst (buildSections curve tps segs looped)) =
  (List.length (filter (hasLoopSeg segs) tps) +
   (if looped then List.length tps else List.length tps - 1))%nat.
Proof.
  intros Hn. unfold buildSections.
  destruct (Nat.ltb_spec (List.length tps) 2); [lia |]. cbv zeta. cbn [fst].
  rewrite assign_length, buildLoop_length. cbn [b_sections List.length].
  destruct looped; lia.
Qed.

Lemma buildSections_nonempty (curve : Curve) tps segs looped :
  (2 <= List.length tps)%nat -> fst (buildSections curve tps segs looped) <> [].
Proof.
  intros Hn H. pose proof (buildSections_length curve tps segs looped Hn) as E.
  rewrite H in E. cbn [List.length] in E. destruct looped; lia.
Qed.

(** With at least two points the table has one spline section per spline
    span ([n] on a closed path, [n - 1] on an open one) plus one roll
    section per point that has a loop segment; so it is never empty. *)
Theorem section_count (curve : Curve) (tps : list TrackPoint) (segs : list LoopSegment)
    (looped : bool) (Hn : (2 <= List.length tps)%nat) :
  List.length (fst (buildSections curve tps segs looped)) =
    (List.length (filter (fun p => match loopMapGet segs (tp_id p) with
                                   | Some _ => true | None => false end) tps) +
     (if looped then List.length tps else List.length tps - 1))%nat /\
  fst (buildSections curve tps segs looped) <> [].
Proof.
  split; [exact (buildSections_length curve tps segs looped Hn) |].
  exact (buildSections_nonempty curve tps segs looped Hn).
Qed.

Lemma section_count_witness :
  List.length (fst (buildSections lineCurve scenarioPoints scenarioLoops false)) = 2%nat.
Proof.
  destruct (section_count lineCurve scenarioPoints scenarioLoops false ltac:(simpl; lia))
    as [E _].
  rewrite E. reflexivity.
Defined.

(** ** Editing actions *)

Lemma map_tp_id_update (f : TrackPoint -> TrackPoint) (id : string) (pts : list TrackPoint) :
  (forall p, tp_id (f p) = tp_id p) ->
  map tp_id (map (fun p => if String.eqb (tp_id p) id then f p else p) pts) = map tp_id pts.
Proof.
  intros Hf. induction pts as [|p pts IH]; cbn [map]; [reflexivity |].
  rewrite IH. destruct (String.eqb (tp_id p) id); rewrite ?Hf; reflexivity.
Qed.

Lemma filter_hasLoopSeg_ids (segs : list LoopSegment) (l1 l2 : list TrackPoint) :
  map tp_id l1 = map tp_id l2 ->
  List.length (filter (hasLoopSeg segs) l1) = List.length (filter (hasLoopSeg segs) l2).
Proof.
  revert l2. induction l1 as [|p l1 IH]; intros [|q l2] H; cbn in H; try discriminate;
    [reflexivity |].
  injection H as Hpq Hl. cbn [filter].
  assert (E : hasLoopSeg segs p = hasLoopSeg segs q) by (unfold hasLoopSeg; rewrite Hpq; reflexivity).
  rewrite E. destruct (hasLoopSeg segs q); cbn [List.length]; rewrite (IH l2 Hl); reflexivity.
Qed.

Lemma section_count_ids (c1 c2 : Curve) (l1 l2 : list TrackPoint) segs looped :
  map tp_id l1 = map tp_id l2 ->
  List.length (fst (buildSections c1 l1 segs looped)) =
  List.length (fst (buildSections c2 l2 segs looped)).
Proof.
  intros H.
  assert (Hl : List.length l1 = List.length l2)
    by (rewrite <- (length_map tp_id l1), <- (length_map tp_id l2), H; reflexivity).
  destruct (Nat.ltb_spec (List.length l1) 2).
  - unfold buildSections. rewrite <- Hl.
    destruct (Nat.ltb_spec (List.length l1) 2); [reflexivity | lia].
  - rewrite !buildSections_length by lia. rewrite (filter_hasLoopSeg_ids segs l1 l2 H), Hl.
    reflexivity.
Qed.

(** Moving a point or changing its tilt keeps the ordered list of point
    ids and the loop segments, so the section table keeps its size,
    whatever the spline built from the new positions. *)
Theorem update_point_keeps_ids_and_sections (id : string) (pos : Vector3) (t : R)
    (st : Store) (c1 c2 : Curve) (looped : bool) :
  map tp_id (trackPoints (updateTrackPoint id pos st)) = map tp_id (trackPoints st) /\
  map tp_id (trackPoints (updateTrackPointTilt id t st)) = map tp_id (trackPoints st) /\
  loopSegments (updateTrackPoint id pos st) = loopSegments st /\
  loopSegments (updateTrackPointTilt id t st) = loopSegments st /\
  List.length (fst (buildSections c1 (trackPoints (updateTrackPoint id pos st))
                      (loopSegments st) looped)) =
    List.length (fst (buildSections c2 (trackPoints st) (loopSegments st) looped)) /\
  List.length (fst (buildSections c1 (trackPoints (updateTrackPointTilt id t st))
                      (loopSegments st) looped)) =
    List.length (fst (buildSections c2 (trackPoints st) (loopSegments st) looped)).
Proof.
  assert (H1 : map tp_id (trackPoints (updateTrackPoint id pos st)) = map tp_id (trackPoints st))
    by (apply map_tp_id_update; reflexivity).
  assert (H2 : map tp_id (trackPoints (updateTrackPointTilt id t st)) = map tp_id (trackPoints st))
    by (apply map_tp_id_update; reflexivity).
  repeat split; try assumption; try reflexivity; apply section_count_ids; assumption.
Qed.

Lemma find_map_same_key (f : TrackPoint -> TrackPoint) (id : string) (pts : list TrackPoint) :
  (forall p, tp_id (f p) = tp_id p) ->
  find (fun p => String.eqb (tp_id p) id)
       (map (fun p => if String.eqb (tp_id p) id then f p else p) pts) =
  option_map f (find (fun p => String.eqb (tp_id p) id) pts).
Proof.
  intros Hf. induction pts as [|p pts IH]; cbn [map find]; [reflexivity |].
  destruct (String.eqb (tp_id p) id) eqn:E.
  - rewrite Hf, E. reflexivity.
  - rewrite E. exact IH.
Qed.

(** Calling [createLoopAtPoint] again for the same point changes nothing:
    the first call marks the point [hasLoop], and a marked point (or a
    missing one) is left alone, so a point gets at most one loop segment
    from repeated calls. *)
Theorem createLoopAtPoint_idempotent (l1 l2 id : string) (st : Store) :
  createLoopAtPoint l2 id (createLoopAtPoint l1 id st) = createLoopAtPoint l1 id st.
Proof.
  destruct (find (fun p => String.eqb (tp_id p) id) (trackPoints st)) as [ep|] eqn:E.
  - destruct (match hasLoop ep with Some true => true | _ => false end) eqn:Hl.
    + assert (C : createLoopAtPoint l1 id st = st)
        by (unfold createLoopAtPoint; rewrite E, Hl; reflexivity).
      rewrite C. unfold createLoopAtPoint. rewrite E, Hl. reflexivity.
    + set (st1 := createLoopAtPoint l1 id st).
      assert (F : find (fun p => String.eqb (tp_id p) id) (trackPoints st1) =
                  Some (mkTrackPoint (tp_id ep) (position ep) (tilt ep) (Some true))).
      { unfold st1, createLoopAtPoint. rewrite E, Hl. cbn [trackPoints].
        rewrite (find_map_same_key
                   (fun p => mkTrackPoint (tp_id p) (position p) (tilt p) (Some true)))
          by reflexivity.
        rewrite E. reflexivity. }
      unfold createLoopAtPoint at 1. rewrite F. reflexivity.
  - assert (C : createLoopAtPoint l1 id st = st)
      by (unfold createLoopAtPoint; rewrite E; reflexivity).
    rewrite C. unfold createLoopAtPoint. rewrite E. reflexivity.
Qed.


(** ** The ride tick keeps progress in [[0, 1)] *)

Lemma div_nonneg3 (a b t : R) : 0 <= a -> 0 <= b -> 0 < t -> 0 <= a * b / t.
Proof. intros. unfold Rdiv. apply Rmult_le_pos; [nra | left; apply Rinv_0_lt_compat; lra]. Qed.

(** With a non-negative speed multiplier and frame time and a positive
    total length, a tick maps a progress in [[0, 1)] to a progress in
    [[0, 1)]: below 1 it advances, at or past 1 it wraps or (open path)
    resets to 0. A store that is not riding is returned unchanged. *)
Theorem rideTick_progress_in_unit (curve : Curve) (sections : list TrackSection)
    (total fpp rs delta : R) (st : Store) (mh : R)
    (Hp : 0 <= rideProgress st < 1) (Hrs : 0 <= rs) (Hd : 0 <= delta) (Ht : 0 < total) :
  0 <= rideProgress (fst (rideTick curve sections total fpp rs delta st mh)) < 1 /\
  (isRiding st = false -> rideTick curve sections total fpp rs delta st mh = (st, mh)).
Proof.
  split.
  - unfold rideTick. destruct (isRiding st); cbn [negb]; [| exact Hp].
    destruct sections as [|s0 rest]; [exact Hp |].
    destruct (sampleHybridTrack (rideProgress st) (s0 :: rest) curve (loopSegments st)
                (trackPoints st) (isLooped st)) as [cur|]; [| exact Hp].
    destruct (hasChainLift st && rlt (rideProgress st) fpp);
    [ set (sp := 0.9 * rs); assert (Hsp : 0 <= sp) by (unfold sp; lra)
    | set (sp := 12 * rs); assert (Hsp : 0 <= sp) by (unfold sp; lra) ];
    (assert (Hq : 0 <= sp * delta / total) by (apply div_nonneg3; lra);
     destruct (rle_spec 1 (rideProgress st + sp * delta / total)) as [[E H] | [E H]];
     rewrite E;
     [ destruct (isLooped st); cbn [fst setRideProgress stopRide rideProgress];
       [ apply jsMod_1_range; lra | lra ]
     | cbn [fst setRideProgress rideProgress]; lra ]).
  - intros H. unfold rideTick. rewrite H. reflexivity.
Qed.

Lemma rideTick_progress_in_unit_witness :
  0 <= rideProgress (fst (rideTick lineCurve (fst (buildSections lineCurve plainPoints [] false))
                            10 0.2 1 1 (ridingStore 0.99) 0)) < 1.
Proof.
  apply (rideTick_progress_in_unit lineCurve _ 10 0.2 1 1 (ridingStore 0.99) 0);
    cbn [rideProgress ridingStore]; lra.
Defined.

(** ** [firstPeakProgress] *)





(** ** Point ids *)


























(** ** Save, load, export, import *)






Lemma allSome_length {A : Type} (l : list (option A)) (l' : list A) :
  allSome l = Some l' -> List.length l' = List.length l.
Proof.
  revert l'. induction l as [|[x|] l IH]; intros l' H; cbn in H.
  - injection H as <-. reflexivity.
  - destruct (allSome l) as [r|] eqn:E; cbn in H; [| discriminate H].
    injection H as <-. cbn. f_equal. apply IH. reflexivity.
  - discriminate H.
Qed.

Lemma find_app_none {A : Type} (f : A -> bool) (l1 l2 : list A) :
  find f l1 = None -> find f (l1 ++ l2) = find f l2.
Proof. induction l1 as [|x l1 IH]; cbn; [reflexivity |]. destruct (f x); [discriminate | exact IH]. Qed.

Lemma find_id_none (cs : list SavedCoaster) (id : string) :
  ~ In id (map sc_id cs) -> find (fun c => String.eqb (sc_id c) id) cs = None.
Proof.
  intros H. destruct (find _ cs) as [c|] eqn:E; [| reflexivity].
  apply find_some in E as [Hin Heq]. apply String.eqb_eq in Heq.
  exfalso. apply H. rewrite <- Heq. apply in_map, Hin.
Qed.

Lemma jsonStored_idem (v : json) : jsonStored (jsonStored v) = jsonStored v.
Proof.
  induction v as [| b | n | str | xs IH | kvs IH | b] using json_ind'; try reflexivity.
  - cbn [jsonStored]. rewrite map_map. f_equal. apply map_ext_Forall. exact IH.
  - cbn [jsonStored]. rewrite map_map. f_equal. apply map_ext_Forall.
    refine (Forall_impl _ _ IH). intros [k x] Hx. cbn [fst snd] in *. rewrite Hx. reflexivity.
Qed.

Lemma storedCoaster_idem (c : SavedCoaster) : storedCoaster (storedCoaster c) = storedCoaster c.
Proof.
  destruct c. unfold storedCoaster. cbn [sc_id sc_name sc_timestamp sc_trackPoints
    sc_loopSegments sc_isLooped sc_hasChainLift sc_showWoodSupports].
  rewrite map_map, jsonStored_idem. f_equal. apply map_ext. apply jsonStored_idem.
Qed.


Lemma ids_stored (cs : list SavedCoaster) : map sc_id (map storedCoaster cs) = map sc_id cs.
Proof. rewrite map_map. reflexivity. Qed.

Lemma find_map_stored (cs : list SavedCoaster) (id : string) :
  find (fun c => String.eqb (sc_id c) id) (map storedCoaster cs) =
  option_map storedCoaster (find (fun c => String.eqb (sc_id c) id) cs).
Proof.
  induction cs as [|c cs IH]; [reflexivity |]. cbn.
  destruct (String.eqb (sc_id c) id); [reflexivity | exact IH].
Qed.





Lemma find_filter_other (cs : list SavedCoaster) (id id' : string) :
  find (fun c => String.eqb (sc_id c) id')
       (filter (fun c => negb (String.eqb (sc_id c) id)) cs) =
  if String.eqb id' id then None else find (fun c => String.eqb (sc_id c) id') cs.
Proof.
  induction cs as [|c cs IH]; cbn; [destruct (String.eqb id' id); reflexivity |].
  destruct (String.eqb (sc_id c) id) eqn:E1; cbn.
  - apply String.eqb_eq in E1. subst id. rewrite IH.
    destruct (String.eqb id' (sc_id c)) eqn:E2; [reflexivity |].
    rewrite String.eqb_sym, E2. reflexivity.
  - destruct (String.eqb (sc_id c) id') eqn:E2.
    + apply String.eqb_eq in E2. subst id'. rewrite ?E1, ?String.eqb_refl. reflexivity.
    + exact IH.
Qed.

(** After [deleteCoaster id], loading [id] changes nothing and exporting
    [id] gives [null]; every other id exports as before; the store's saved
    list is the stored list. *)
Theorem deleteCoaster_spec (id : string) (a : App) :
  loadCoaster id (deleteCoaster id a) = Some (deleteCoaster id a) /\
  exportCoaster id (deleteCoaster id a) = None /\
  (forall id', String.eqb id' id = false ->
     exportCoaster id' (deleteCoaster id a) = exportCoaster id' a) /\
  savedCoasters (store (app_env (deleteCoaster id a))) = storage (app_env (deleteCoaster id a)).
Proof.
  assert (N : find (fun c => String.eqb (sc_id c) id)
                (loadSavedCoasters (app_env (deleteCoaster id a))) = None).
  { unfold loadSavedCoasters at 1. cbn [deleteCoaster app_env storage].
    rewrite find_map_stored, find_filter_other, String.eqb_refl. reflexivity. }
  split; [| split; [| split]].
  - unfold loadCoaster. rewrite N. reflexivity.
  - unfold exportCoaster. rewrite N. reflexivity.
  - intros id' H. unfold exportCoaster. unfold loadSavedCoasters at 1.
    cbn [deleteCoaster app_env storage].
    rewrite find_map_stored, find_filter_other, H. unfold loadSavedCoasters.
    rewrite find_map_stored. destruct (find _ (storage (app_env a))); [| reflexivity].
    cbn [option_map]. rewrite storedCoaster_idem. reflexivity.
  - reflexivity.
Qed.

Lemma getProp_savedToJson (c : SavedCoaster) :
  getProp (savedToJson c) "name" = Some (JStr (sc_name c)) /\
  getProp (savedToJson c) "trackPoints" = Some (JArr (sc_trackPoints c)) /\
  getProp (savedToJson c) "loopSegments" = Some (sc_loopSegments c) /\
  getProp (savedToJson c) "isLooped" = Some (JBool (sc_isLooped c)) /\
  getProp (savedToJson c) "hasChainLift" = Some (JBool (sc_hasChainLift c)) /\
  getProp (savedToJson c) "showWoodSupports" = Some (JBool (sc_showWoodSupports c)).
Proof. repeat split; reflexivity. Qed.

Lemma export_import_eq (id newId : string) (now : R) (a : App) (env : Env)
    (c : SavedCoaster)
    (Hc : find (fun c => String.eqb (sc_id c) id) (loadSavedCoasters (app_env a)) = Some c)
    (Hname : String.eqb (trim (sc_name c)) EmptyString = false)
    (Hpts : forallb validTrackPoint (sc_trackPoints c) = true) :
  let c' := mkSaved newId (trim (sc_name c)) now (sc_trackPoints c)
              (if truthy (Some (sc_loopSegments c)) then sc_loopSegments c else JArr [])
              (sc_isLooped c) (sc_hasChainLift c) (sc_showWoodSupports c) in
  importCoaster (exportCoaster id a) newId now env =
  (true, mkEnv (setSavedCoasters (loadSavedCoasters env ++ [c']) (store env))
          (loadSavedCoasters env ++ [c'])).
Proof.
  cbv zeta. unfold exportCoaster. rewrite Hc. cbn [option_map].
  destruct (getProp_savedToJson c) as (H1 & H2 & H3 & H4 & H5 & H6).
  unfold importCoaster. cbn [truthy isObjectType andb negb].
  rewrite H1, Hname, H2, Hpts, H3, H4, H5, H6. cbn [negb truthy].
  destruct (sc_hasChainLift c); reflexivity.
Qed.

(** Importing the JSON that [exportCoaster] returns for a stored coaster
    with a name that is not blank after trimming and track points that
    pass the import checks succeeds and appends a copy with the new id and
    timestamp, the trimmed name, the same track points, the same flags,
    and the same [loopSegments] (or [[]] if it was falsy). *)
Theorem exportCoaster_importCoaster (id newId : string) (now : R) (a : App) (env : Env)
    (c : SavedCoaster)
    (Hc : find (fun c => String.eqb (sc_id c) id) (loadSavedCoasters (app_env a)) = Some c)
    (Hname : String.eqb (trim (sc_name c)) EmptyString = false)
    (Hpts : forallb validTrackPoint (sc_trackPoints c) = true) :
  let c' := mkSaved newId (trim (sc_name c)) now (sc_trackPoints c)
              (if truthy (Some (sc_loopSegments c)) then sc_loopSegments c else JArr [])
              (sc_isLooped c) (sc_hasChainLift c) (sc_showWoodSupports c) in
  importCoaster (exportCoaster id a) newId now env =
  (true, mkEnv (setSavedCoasters (loadSavedCoasters env ++ [c']) (store env))
          (loadSavedCoasters env ++ [c'])).
Proof. exact (export_import_eq id newId now a env c Hc Hname Hpts). Qed.

Lemma exportCoaster_importCoaster_witness :
  fst (importCoaster (exportCoaster "coaster-1"
         (saveCoaster " Big One " "coaster-1" 0 (addTrackPoint (V3 0 0 0) initialApp)))
         "coaster-2" 1 (app_env initialApp)) = true /\
  map sc_name (storage (snd (importCoaster (exportCoaster "coaster-1"
         (saveCoaster " Big One " "coaster-1" 0 (addTrackPoint (V3 0 0 0) initialApp)))
         "coaster-2" 1 (app_env initialApp)))) = ["Big One"%string].
Proof.
  rewrite (exportCoaster_importCoaster "coaster-1" "coaster-2" 1 _ (app_env initialApp)
             (mkSaved "coaster-1" " Big One " 0
                (map serializeTrackPoint [mkTrackPoint "point-1" (V3 0 0 0) 0 None])
                (JArr []) false true false)) by reflexivity.
  split; reflexivity.
Defined.



(** [importCoaster] accepts an object whose [loopSegments] is truthy but
    neither an array nor a non-finite number (a string, [true], a non-zero
    finite number, an object) and stores it as is; loading the stored copy
    then throws inside the [try] ([.map] is not a function) and leaves the
    state unchanged, so such an import can never be loaded. *)
Theorem import_unloadable (j v : json) (newId : string) (now : R) (a : App)
    (Hok : fst (importCoaster (Some j) newId now (app_env a)) = true)
    (Hfresh : ~ In newId (map sc_id (storage (app_env a))))
    (Hv : getProp j "loopSegments" = Some v) (Ht : truthy (Some v) = true)
    (Hna : forall xs, v <> JArr xs) (Hfin : forall b, v <> JInf b) :
  let a' := liftEnv (snd (importCoaster (Some j) newId now (app_env a))) a in
  In newId (map sc_id (storage (app_env a'))) /\ loadCoaster newId a' = Some a'.
Proof.
  cbv zeta. unfold importCoaster in *.
  destruct (negb (truthy (Some j) && isObjectType j)); [discriminate Hok |].
  destruct (getProp j "name") as [[| | | name | | |]|]; try discriminate Hok.
  destruct (String.eqb (trim name) EmptyString); [discriminate Hok |].
  destruct (getProp j "trackPoints") as [[| | | | pts | |]|]; try discriminate Hok.
  destruct (negb (forallb validTrackPoint pts)); [discriminate Hok |].
  rewrite Hv, Ht. cbn [snd liftEnv app_env storage].
  split.
  - rewrite map_app. apply in_or_app. right. left. reflexivity.
  - unfold loadCoaster. unfold loadSavedCoasters at 1. cbn [liftEnv app_env storage].
    rewrite map_app, find_app_none.
    + cbn [map find storedCoaster sc_id]. rewrite String.eqb_refl.
      unfold storedCoaster. cbn [sc_trackPoints sc_loopSegments].
      destruct (existsb throwsOnTrackPoint _); [reflexivity |].
      unfold loopSegmentEntries.
      destruct v as [| b | n | str | xs | kvs | b]; cbn [jsonStored];
        [discriminate Ht | rewrite Ht; reflexivity | rewrite Ht; reflexivity
        | rewrite Ht; reflexivity | exfalso; exact (Hna xs eq_refl) | reflexivity
        | exfalso; exact (Hfin b eq_refl)].
    + apply find_id_none. unfold loadSavedCoasters. rewrite !ids_stored. exact Hfresh.
Qed.

Lemma import_unloadable_witness :
  let j := JObj [("name"%string, JStr "Flat"); ("trackPoints"%string, JArr []);
                 ("loopSegments"%string, JObj [])] in
  In "coaster-1"%string (map sc_id (storage (app_env
       (liftEnv (snd (importCoaster (Some j) "coaster-1" 0 (app_env initialApp))) initialApp)))) /\
  loadCoaster "coaster-1"
    (liftEnv (snd (importCoaster (Some j) "coaster-1" 0 (app_env initialApp))) initialApp) =
  Some (liftEnv (snd (importCoaster (Some j) "coaster-1" 0 (app_env initialApp))) initialApp).
Proof.
  cbv zeta.
  apply (import_unloadable _ (JObj [])).
  - reflexivity.
  - intros [].
  - reflexivity.
  - reflexivity.
  - intros xs H; discriminate H.
  - intros b H; discriminate H.
Defined.

Lemma AppStep_mirror (a a' : App) :
  AppStep a a' ->
  map storedCoaster (savedCoasters (store (app_env a))) = loadSavedCoasters (app_env a) ->
  map storedCoaster (savedCoasters (store (app_env a'))) = loadSavedCoasters (app_env a').
Proof.
  intros Hs Hm. unfold loadSavedCoasters in *.
  destruct Hs; cbn [liftStore liftEnv app_env store storage setSavedCoasters savedCoasters];
    try exact Hm; try reflexivity.
  - unfold createLoopAtPoint. destruct (find _ _) as [ep|]; [| exact Hm].
    destruct (match hasLoop ep with Some true => true | _ => false end); exact Hm.
  - unfold startRide. destruct (Nat.leb 2 _); exact Hm.
  - unfold rideTick. destruct (negb (isRiding _)); [exact Hm |].
    destruct secs; [exact Hm |].
    destruct (sampleHybridTrack _ _ _ _ _ _) as [cur|]; [| exact Hm].
    destruct (if hasChainLift _ && rlt _ fpp then _ else _) as [sp mh1].
    destruct (rle 1 _); [destruct (isLooped _) |]; exact Hm.
  - unfold loadCoaster in H.
    destruct (find _ _) as [c|]; [| injection H as <-; exact Hm].
    destruct (existsb _ _); [injection H as <-; exact Hm |].
    destruct (loopSegmentEntries _) as [lss|]; [| injection H as <-; exact Hm].
    destruct (existsb _ _); [injection H as <-; exact Hm |].
    destruct (allSome _) as [pts|]; [| discriminate H].
    destruct (allSome _) as [segs|]; [| discriminate H].
    injection H as <-. exact Hm.
  - unfold importCoaster.
    destruct parsed as [j|]; [| exact Hm].
    destruct (negb _); [exact Hm |].
    destruct (getProp j "name") as [[]|]; try exact Hm.
    destruct (String.eqb _ _); [exact Hm |].
    destruct (getProp j "trackPoints") as [[]|]; try exact Hm.
    destruct (negb _); [exact Hm | reflexivity].
  - unfold loadSavedCoasters. rewrite map_map. apply map_ext. apply storedCoaster_idem.
Qed.

(** A call of [loadCoaster] that returns normally either changes nothing
    (unknown id, or a TypeError caught by its [try]) or replaces the whole
    track: build mode, no selection, progress 0, not riding, and the
    coaster's track points (as many as stored). It never changes the
    saved list, in the store or in [localStorage]. *)
Theorem loadCoaster_all_or_nothing (id : string) (a a' : App)
    (H : loadCoaster id a = Some a') :
  storage (app_env a') = storage (app_env a) /\
  savedCoasters (store (app_env a')) = savedCoasters (store (app_env a)) /\
  (a' = a \/
   exists c, find (fun c => String.eqb (sc_id c) id) (storage (app_env a)) = Some c /\
     mode (store (app_env a')) = Build /\ selectedPointId (store (app_env a')) = None /\
     rideProgress (store (app_env a')) = 0 /\ isRiding (store (app_env a')) = false /\
     List.length (trackPoints (store (app_env a'))) = List.length (sc_trackPoints c)).
Proof.
  unfold loadCoaster, loadSavedCoasters in H. rewrite find_map_stored in H.
  destruct (find _ (storage _)) as [c|] eqn:Ec; cbn [option_map] in H;
    [| injection H as <-; split; [reflexivity | split; [reflexivity | left; reflexivity]]].
  destruct (existsb _ _);
    [injection H as <-; split; [reflexivity | split; [reflexivity | left; reflexivity]] |].
  destruct (loopSegmentEntries _) as [lss|];
    [| injection H as <-; split; [reflexivity | split; [reflexivity | left; reflexivity]]].
  destruct (existsb _ _);
    [injection H as <-; split; [reflexivity | split; [reflexivity | left; reflexivity]] |].
  destruct (allSome (map deserializeTrackPoint _)) as [pts|] eqn:Ep; [| discriminate H].
  destruct (allSome (map deserializeLoopSegment lss)) as [segs|]; [| discriminate H].
  injection H as <-. split; [reflexivity | split; [reflexivity |]].
  right. exists c. split; [first [exact Ec | reflexivity] |].
  cbn [app_env store mode selectedPointId rideProgress isRiding trackPoints].
  repeat (split; [reflexivity |]).
  rewrite (allSome_length _ _ Ep), length_map. unfold storedCoaster.
  cbn [sc_trackPoints]. apply length_map.
Qed.

Lemma loadCoaster_all_or_nothing_witness :
  exists a', loadCoaster "coaster-1" (saveCoaster "Big One" "coaster-1" 0
               (addTrackPoint (V3 1 0 0) (addTrackPoint (V3 0 0 0) initialApp))) = Some a' /\
  List.length (trackPoints (store (app_env a'))) = 2%nat.
Proof.
  destruct (loadCoaster "coaster-1" (saveCoaster "Big One" "coaster-1" 0
               (addTrackPoint (V3 1 0 0) (addTrackPoint (V3 0 0 0) initialApp)))) as [a'|] eqn:E;
    [| discriminate E].
  exists a'. split; [reflexivity |].
  destruct (loadCoaster_all_or_nothing _ _ _ E) as (_ & _ & [Ea | (c & Ec & _ & _ & _ & _ & L)]).
  - rewrite Ea. reflexivity.
  - rewrite L. injection Ec as <-. reflexivity.
Defined.

(** In every reachable state, the store's [savedCoasters] list, written
    with [JSON.stringify] and read back, equals what [loadSavedCoasters]
    returns: every action that writes one list writes the other. The two
    lists can differ only where memory holds a non-finite number, such as
    the tilt [Infinity] of an imported [1e400], which reads back as [null]. *)
Theorem reachable_saved_list_mirrors_storage (a : App) (Hr : Reachable a) :
  map storedCoaster (savedCoasters (store (app_env a))) = loadSavedCoasters (app_env a).
Proof.
  induction Hr as [a _ _ Hm | a a' _ IH Hs].
  - rewrite Hm. unfold loadSavedCoasters. rewrite map_map. apply map_ext. apply storedCoaster_idem.
  - exact (AppStep_mirror a a' Hs IH).
Qed.

Lemma reachable_saved_list_mirrors_storage_witness :
  Reachable (liftEnv (snd (importCoaster (Some infTiltInput) "coaster-1" 0 (app_env initialApp))) initialApp) /\
  (map storedCoaster (savedCoasters (store (app_env
     (liftEnv (snd (importCoaster (Some infTiltInput) "coaster-1" 0 (app_env initialApp))) initialApp)))) =
   loadSavedCoasters (app_env
     (liftEnv (snd (importCoaster (Some infTiltInput) "coaster-1" 0 (app_env initialApp))) initialApp))) /\
  (savedCoasters (store (app_env
     (liftEnv (snd (importCoaster (Some infTiltInput) "coaster-1" 0 (app_env initialApp))) initialApp))) <>
   loadSavedCoasters (app_env
     (liftEnv (snd (importCoaster (Some infTiltInput) "coaster-1" 0 (app_env initialApp))) initialApp))).
Proof.
  assert (R : Reachable (liftEnv (snd (importCoaster (Some infTiltInput) "coaster-1" 0 (app_env initialApp))) initialApp)).
  { apply (R_step initialApp); [| apply St_import].
    apply R_init; reflexivity. }
  split; [exact R |]. split; [exact (reachable_saved_list_mirrors_storage _ R) |].
  vm_compute. intros H. discriminate H.
Defined.

(** ** Arc-length estimates *)

Lemma cauchy_schwarz3 (a b c x y z : R) :
  a * x + b * y + c * z <= sqrt (a * a + b * b + c * c) * sqrt (x * x + y * y + z * z).
Proof.
  rewrite <- sqrt_mult by nra.
  destruct (Rle_or_lt (a * x + b * y + c * z) 0) as [H | H].
  - pose proof (sqrt_pos ((a * a + b * b + c * c) * (x * x + y * y + z * z))). lra.
  - rewrite <- (sqrt_square (a * x + b * y + c * z)) at 1 by lra.
    apply sqrt_le_1_alt.
    assert (L : (a * a + b * b + c * c) * (x * x + y * y + z * z) -
                (a * x + b * y + c * z) * (a * x + b * y + c * z) =
                (a * y - b * x) * (a * y - b * x) + (a * z - c * x) * (a * z - c * x) +
                (b * z - c * y) * (b * z - c * y)) by ring.
    pose proof (Rle_0_sqr (a * y - b * x)). pose proof (Rle_0_sqr (a * z - c * x)).
    pose proof (Rle_0_sqr (b * z - c * y)). unfold Rsqr in *. lra.
Qed.

Lemma minkowski3 (a b c x y z : R) :
  sqrt ((a + x) * (a + x) + (b + y) * (b + y) + (c + z) * (c + z)) <=
  sqrt (a * a + b * b + c * c) + sqrt (x * x + y * y + z * z).
Proof.
  set (sA := sqrt (a * a + b * b + c * c)). set (sX := sqrt (x * x + y * y + z * z)).
  assert (HA : 0 <= sA) by apply sqrt_pos. assert (HX : 0 <= sX) by apply sqrt_pos.
  rewrite <- (sqrt_square (sA + sX)) by lra.
  apply sqrt_le_1_alt.
  assert (EA : sA * sA = a * a + b * b + c * c) by (apply sqrt_sqrt; nra).
  assert (EX : sX * sX = x * x + y * y + z * z) by (apply sqrt_sqrt; nra).
  pose proof (cauchy_schwarz3 a b c x y z) as CS. fold sA sX in CS.
  nra.
Qed.

Lemma distanceTo_triangle (p q r : Vector3) :
  distanceTo p r <= distanceTo p q + distanceTo q r.
Proof.
  unfold distanceTo, length, lengthSq, dot, vsub; cbn [vx vy vz].
  pose proof (minkowski3 (vx p - vx q) (vy p - vy q) (vz p - vz q)
                         (vx q - vx r) (vy q - vy r) (vz q - vz r)) as M.
  replace (vx p - vx q + (vx q - vx r)) with (vx p - vx r) in M by ring.
  replace (vy p - vy q + (vy q - vy r)) with (vy p - vy r) in M by ring.
  replace (vz p - vz q + (vz q - vz r)) with (vz p - vz r) in M by ring.
  exact M.
Qed.

Lemma distanceTo_self (p : Vector3) : distanceTo p p = 0.
Proof.
  unfold distanceTo, length, lengthSq, dot, vsub; cbn [vx vy vz].
  replace ((vx p - vx p) * (vx p - vx p) + (vy p - vy p) * (vy p - vy p) +
           (vz p - vz p) * (vz p - vz p)) with 0 by ring.
  apply sqrt_0.
Qed.

Lemma chord_sum (g : nat -> Vector3) (n : nat) :
  distanceTo (g O) (g n) <= sumRange n (fun s => distanceTo (g s) (g (S s))).
Proof.
  induction n as [|n IH]; cbn [sumRange].
  - rewrite distanceTo_self. lra.
  - pose proof (distanceTo_triangle (g O) (g n) (g (S n))). lra.
Qed.

(** The chord-sum estimate of a spline span is at least the straight
    distance between the span's end points. *)
Theorem splineSegmentLength_ge_chord (curve : Curve) (a b : R) :
  distanceTo (getPoint curve a) (getPoint curve b) <= splineSegmentLength curve a b.
Proof.
  unfold splineSegmentLength. cbv zeta.
  set (g := fun s => getPoint curve (a + INR s / INR 10 * (b - a))).
  change (distanceTo (getPoint curve a) (getPoint curve b) <=
          sumRange 10 (fun s => distanceTo (g s) (g (S s)))).
  replace (getPoint curve a) with (g O)
    by (unfold g; f_equal; cbn [INR]; field).
  replace (getPoint curve b) with (g 10%nat)
    by (unfold g; f_equal; rewrite Rdiv_diag by (apply not_0_INR; lia); ring).
  apply chord_sum.
Qed.

Lemma minkowski_sum (n : nat) (u v : nat -> R) :
  sqrt (sumRange n u * sumRange n u + sumRange n v * sumRange n v) <=
  sumRange n (fun i => sqrt (u i * u i + v i * v i)).
Proof.
  induction n as [|n IH]; cbn [sumRange].
  - replace (0 * 0 + 0 * 0) with 0 by ring. rewrite sqrt_0. lra.
  - pose proof (minkowski3 (sumRange n u) (sumRange n v) 0 (u n) (v n) 0) as M.
    replace (sumRange n u * sumRange n u + sumRange n v * sumRange n v + 0 * 0)
      with (sumRange n u * sumRange n u + sumRange n v * sumRange n v) in M by ring.
    replace (u n * u n + v n * v n + 0 * 0) with (u n * u n + v n * v n) in M by ring.
    replace ((sumRange n u + u n) * (sumRange n u + u n) +
             (sumRange n v + v n) * (sumRange n v + v n)) with
      ((sumRange n u + u n) * (sumRange n u + u n) +
       (sumRange n v + v n) * (sumRange n v + v n) + (0 + 0) * (0 + 0)) by ring.
    lra.
Qed.

Lemma sumRange_abs (n : nat) (f : nat -> R) :
  Rabs (sumRange n f) <= sumRange n (fun i => Rabs (f i)).
Proof.
  induction n as [|n IH]; cbn [sumRange].
  - rewrite Rabs_R0. lra.
  - pose proof (Rabs_triang (sumRange n f) (f n)). lra.
Qed.

Lemma sumRange_telescope (n : nat) (h : nat -> R) :
  sumRange n (fun i => h (S i) - h i) = h n - h O.
Proof. induction n as [|n IH]; cbn [sumRange]; [ring | rewrite IH; ring]. Qed.

Lemma sumRange_scale (n : nat) (c : R) (f : nat -> R) :
  sumRange n (fun i => c * f i) = c * sumRange n f.
Proof. induction n as [|n IH]; cbn [sumRange]; [ring | rewrite IH; ring]. Qed.

(** The 100-step estimate of a loop's arc length is at least
    [sqrt(pitch^2 + (2 pi radius)^2)], the length of the straight line the
    helix unrolls to. *)
Theorem computeRollArcLength_ge_helix (r p : R) :
  sqrt (p * p + (2 * PI * r) * (2 * PI * r)) <= computeRollArcLength r p.
Proof.
  unfold computeRollArcLength. cbv zeta.
  set (h := fun i : nat => theta (INR i / INR 100)).
  set (u := fun _ : nat => p / INR 100).
  set (v := fun i : nat => r * sqrt ((h (S i) - h i) * (h (S i) - h i))).
  change (sqrt (p * p + 2 * PI * r * (2 * PI * r)) <=
          sumRange 100 (fun i => sqrt (u i * u i + v i * v i))).
  eapply Rle_trans; [| apply minkowski_sum].
  apply sqrt_le_1_alt.
  assert (Su : sumRange 100 u = p).
  { unfold u. rewrite sumRange_const. field. apply not_0_INR. lia. }
  assert (Sv : sumRange 100 v = r * sumRange 100 (fun i => Rabs (h (S i) - h i))).
  { unfold v. rewrite <- sumRange_scale. apply sumRange_ext. intros k _.
    rewrite <- sqrt_Rsqr_abs. reflexivity. }
  assert (T : sumRange 100 (fun i => h (S i) - h i) = 2 * PI).
  { rewrite sumRange_telescope. unfold h.
    rewrite Rdiv_diag by (apply not_0_INR; lia).
    replace (INR 0 / INR 100) with 0 by (cbn [INR]; field).
    rewrite theta_at_1, theta_at_0. ring. }
  pose proof (sumRange_abs 100 (fun i => h (S i) - h i)) as A.
  rewrite T in A. rewrite Rabs_right in A by (pose proof PI_RGT_0; lra).
  rewrite Su, Sv.
  set (S := sumRange 100 (fun i => Rabs (h (S i) - h i))) in *.
  assert (H2 : 0 <= 2 * PI) by (pose proof PI_RGT_0; lra).
  assert (HS : 2 * PI * (2 * PI) <= S * S) by nra.
  assert (Hr : 0 <= r * r) by nra.
  assert (0 <= r * r * (S * S - 2 * PI * (2 * PI))) by (apply Rmult_le_pos; lra).
  nra.
Qed.
